(** * Verification of the configuration loader (server/config/config.go)

    The Go package [config] builds a process-wide configuration snapshot
    from environment variables.  This development embeds the package and
    the pieces of the Go standard library it calls ([os.Getenv],
    [strings.SplitSeq], [strings.TrimSpace], [strconv.Atoi],
    [strconv.ParseInt], [time.ParseDuration]) and proves the properties
    stated about them.

    Conventions.
    - A Go [string] is a sequence of bytes: Rocq's [string] (a list of
      8-bit [ascii]).
    - Go's [int64]/[uint64] are [Z] with the wrap-around written out.
    - A Go function returning [(value, error)] returns a pair whose second
      component is [option error].
    - A run-time panic is an explicit outcome of the small state monad [M]. *)

From Stdlib Require Import ZArith Lia Ascii String List.
From Stdlib Require Import SpecFloat.
From stdpp Require Import base option list strings gmap.

Local Open Scope Z_scope.

(** ** Bytes and byte strings *)

Definition byteZ (c : ascii) : Z := Z.of_N (N_of_ascii c).

Definition byte_of_Z (z : Z) : ascii := ascii_of_N (Z.to_N z).

(** [s[a:b]] *)
Definition slice (s : string) (a b : nat) : string :=
  String.substring a (b - a) s.

(** [s[a:]] *)
Fixpoint sdrop (n : nat) (s : string) : string :=
  match n, s with
  | O, _ => s
  | S n', String _ s' => sdrop n' s'
  | S _, EmptyString => EmptyString
  end.

(** [s[i]] for an index known to be in range; 0 stands for the bounds
    panic, which none of the callers below can reach. *)
Definition sbyte (s : string) (i : nat) : Z :=
  match String.get i s with
  | Some c => byteZ c
  | None => 0
  end.

Definition is_empty (s : string) : bool :=
  match s with
  | EmptyString => true
  | String _ _ => false
  end.

(** ** package os *)

Module os.

(** The process environment: a finite map from variable names to values.
    A variable may be present with the empty string as its value. *)
Abbreviation Env := (gmap string string).

(** [os.Getenv]: the value of the variable, or the empty string when the
    variable is not present. *)
Definition Getenv (env : Env) (key : string) : string :=
  default EmptyString (env !! key).

End os.

(** ** package unicode/utf8 *)

Module utf8.

Definition RuneError : Z := 65533.
Definition RuneSelf : Z := 128.
Definition UTFMax : nat := 4.

(** [RuneStart]: the byte is not a continuation byte. *)
Definition RuneStart (b : Z) : bool :=
  negb (Z.land b 192 =? 128).

Definition continuation (b : Z) : bool := (128 <=? b) && (b <=? 191).

(** [DecodeRuneInString]: the first rune of [s] and its width in bytes;
    [(RuneError, 0)] on the empty string and [(RuneError, 1)] on an
    invalid encoding.  The accepted ranges of the second byte are those
    of the package's [acceptRanges] table. *)
Definition DecodeRuneInString (s : string) : Z * nat :=
  match s with
  | EmptyString => (RuneError, 0%nat)
  | String c0 t0 =>
      let s0 := byteZ c0 in
      if s0 <? 128 then (s0, 1%nat)
      else if (s0 <? 194) || (244 <? s0) then (RuneError, 1%nat)
      else
        let sz : nat :=
          if s0 <? 224 then 2%nat else if s0 <? 240 then 3%nat else 4%nat in
        let lo := if s0 =? 224 then 160 else if s0 =? 240 then 144 else 128 in
        let hi := if s0 =? 237 then 159 else if s0 =? 244 then 143 else 191 in
        if (String.length s <? sz)%nat then (RuneError, 1%nat)
        else
          let s1 := sbyte s 1 in
          if (s1 <? lo) || (hi <? s1) then (RuneError, 1%nat)
          else if (sz <=? 2)%nat then
            (Z.lor (Z.shiftl (Z.land s0 31) 6) (Z.land s1 63), 2%nat)
          else
            let s2 := sbyte s 2 in
            if negb (continuation s2) then (RuneError, 1%nat)
            else if (sz <=? 3)%nat then
              (Z.lor (Z.lor (Z.shiftl (Z.land s0 15) 12)
                            (Z.shiftl (Z.land s1 63) 6))
                     (Z.land s2 63), 3%nat)
            else
              let s3 := sbyte s 3 in
              if negb (continuation s3) then (RuneError, 1%nat)
              else
                (Z.lor (Z.lor (Z.lor (Z.shiftl (Z.land s0 7) 18)
                                     (Z.shiftl (Z.land s1 63) 12))
                              (Z.shiftl (Z.land s2 63) 6))
                       (Z.land s3 63), 4%nat)
  end.

(** The backwards scan of [DecodeLastRuneInString] for the start of the
    last rune: [start] is decremented while it is at least [lim] and
    does not point at a rune start. *)
Fixpoint scan_back (s : string) (lim : Z) (n : nat) (start : Z) : Z :=
  match n with
  | O => start
  | S n' =>
      if start <? lim then start
      else if RuneStart (sbyte s (Z.to_nat start)) then start
      else scan_back s lim n' (start - 1)
  end.

(** [DecodeLastRuneInString]: the last rune of [s] and its width. *)
Definition DecodeLastRuneInString (s : string) : Z * nat :=
  let end_ := String.length s in
  match end_ with
  | O => (RuneError, 0%nat)
  | S start =>
      let r := sbyte s start in
      if r <? RuneSelf then (r, 1%nat)
      else
        let lim := Z.max (Z.of_nat end_ - Z.of_nat UTFMax) 0 in
        let st := scan_back s lim 5 (Z.of_nat start - 1) in
        let st := Z.to_nat (if st <? 0 then 0 else st) in
        let '(r, size) := DecodeRuneInString (slice s st end_) in
        if negb (st + size =? end_)%nat then (RuneError, 1%nat)
        else (r, size)
  end.

End utf8.

(** ** package unicode *)

Module unicode.

(** [unicode.IsSpace]: the Latin-1 spaces are listed in the function;
    beyond Latin-1 the code points are those of the [White_Space]
    range table. *)
Definition IsSpace (r : Z) : bool :=
  if r <=? 255 then
    (r =? 9) || (r =? 10) || (r =? 11) || (r =? 12) || (r =? 13)
    || (r =? 32) || (r =? 133) || (r =? 160)
  else
    (r =? 5760) || ((8192 <=? r) && (r <=? 8202))
    || (r =? 8232) || (r =? 8233) || (r =? 8239) || (r =? 8287)
    || (r =? 12288).

End unicode.

(** ** package strings *)

Module strings.

(** The [asciiSpace] table: tab, newline, vertical tab, form feed,
    carriage return and space. *)
Definition asciiSpace (c : Z) : bool :=
  (c =? 9) || (c =? 10) || (c =? 11) || (c =? 12) || (c =? 13) || (c =? 32).

(** [s[size:]] for a string [s] with tail [t0] and the width [size]
    of its first rune (between 1 and 4). *)
Definition after_rune (size : nat) (t0 : string) : string :=
  match size, t0 with
  | 2%nat, String _ t1 => t1
  | 3%nat, String _ (String _ t2) => t2
  | 4%nat, String _ (String _ (String _ t3)) => t3
  | _, _ => t0
  end.

(** The runes the loop [for _, r := range s] visits. *)
Fixpoint runes (s : string) : list Z :=
  match s with
  | EmptyString => []
  | String _ t0 =>
      let '(r, size) := utf8.DecodeRuneInString s in
      r :: runes (after_rune size t0)
  end.

(** [TrimLeftFunc]: [indexFunc s f false] runs [for i, r := range s]
    up to the first rune on which [f] is false and the result is
    [s[i:]]; when there is no such rune the index is -1 and the result
    the empty string. *)
Fixpoint TrimLeftFunc (f : Z -> bool) (s : string) : string :=
  match s with
  | EmptyString => EmptyString
  | String _ t0 =>
      let '(r, size) := utf8.DecodeRuneInString s in
      if f r then TrimLeftFunc f (after_rune size t0) else s
  end.

(** [lastIndexFunc s f false], started at [i]: the index of the start of
    the last rune of [s[0:i]] on which [f] is false, [None] for -1. *)
Fixpoint lastIndexFunc (s : string) (f : Z -> bool) (i : nat) : option nat :=
  match i with
  | O => None
  | S i1 =>
      let '(r, size) := utf8.DecodeLastRuneInString (slice s 0 i) in
      match size, i1 with
      | 2%nat, S i2 => if f r then lastIndexFunc s f i2 else Some i2
      | 3%nat, S (S i3) => if f r then lastIndexFunc s f i3 else Some i3
      | 4%nat, S (S (S i4)) => if f r then lastIndexFunc s f i4 else Some i4
      | _, _ => if f r then lastIndexFunc s f i1 else Some i1
      end
  end.

Definition TrimRightFunc (f : Z -> bool) (s : string) : string :=
  match lastIndexFunc s f (String.length s) with
  | Some i =>
      if utf8.RuneSelf <=? sbyte s i then
        let '(_, wid) := utf8.DecodeRuneInString (sdrop i s) in
        slice s 0 (i + wid)
      else slice s 0 (i + 1)
  | None => slice s 0 0
  end.

Definition TrimFunc (f : Z -> bool) (s : string) : string :=
  TrimRightFunc f (TrimLeftFunc f s).

(** The second loop of [TrimSpace]: [stop] runs down from [len(s)] to
    [start]; [s] is the string already cut at [start]. *)
Fixpoint trimSpace_stop (s : string) (stop : nat) : string :=
  match stop with
  | O => slice s 0 0
  | S stop' =>
      let c := sbyte s stop' in
      if utf8.RuneSelf <=? c then
        TrimRightFunc unicode.IsSpace (slice s 0 stop)
      else if asciiSpace c then trimSpace_stop s stop'
      else slice s 0 stop
  end.

(** The first loop of [TrimSpace]: [start] runs up over the leading
    ASCII spaces; a non-ASCII byte hands the rest to [TrimFunc]. *)
Fixpoint trimSpace_start (s : string) : string :=
  match s with
  | EmptyString => trimSpace_stop s 0
  | String c0 t0 =>
      let c := byteZ c0 in
      if utf8.RuneSelf <=? c then TrimFunc unicode.IsSpace s
      else if asciiSpace c then trimSpace_start t0
      else trimSpace_stop s (String.length s)
  end.

(** [strings.TrimSpace] *)
Definition TrimSpace (s : string) : string := trimSpace_start s.

(** [strings.SplitSeq s sep] for a separator of one byte, as the list of
    the fragments the iterator yields, in order.  The only call of the
    package passes the separator [","]. *)
Fixpoint SplitSeq (s : string) (sep : ascii) : list string :=
  match s with
  | EmptyString => [EmptyString]
  | String c s' =>
      if decide (c = sep) then EmptyString :: SplitSeq s' sep
      else
        match SplitSeq s' sep with
        | frag :: frags => String c frag :: frags
        | [] => [String c EmptyString]
        end
  end.

(** [strings.Join] for a separator of one byte (used to state what
    [SplitSeq] computes). *)
Fixpoint Join (elems : list string) (sep : ascii) : string :=
  match elems with
  | [] => EmptyString
  | [e] => e
  | e :: rest => e +:+ String sep (Join rest sep)
  end.

End strings.

(** ** Fixed-width integers *)

(** Conversion to an unsigned integer of [w] bits. *)
Definition to_uint (w : Z) (z : Z) : Z := z mod 2 ^ w.

(** Conversion to a signed (two's complement) integer of [w] bits. *)
Definition to_int (w : Z) (z : Z) : Z :=
  (z + 2 ^ (w - 1)) mod 2 ^ w - 2 ^ (w - 1).

Definition uint64 (z : Z) : Z := to_uint 64 z.
Definition int64 (z : Z) : Z := to_int 64 z.
Definition uint8 (z : Z) : Z := to_uint 8 z.

(** ** package strconv *)

Module strconv.

Inductive error := ErrSyntax | ErrRange | ErrBitSize.

Definition maxUint64 : Z := 2 ^ 64 - 1.

Section IntSize.

(** [strconv.IntSize], the width of Go's [int] on the target: 32 or 64. *)
Variable intSize : Z.

(** The digit loop of [ParseUint] at base 10: [n] is the value read so
    far. *)
Fixpoint parseUint_loop (cutoff maxVal : Z) (n : Z) (s : string)
  : Z * option error :=
  match s with
  | EmptyString => (n, None)
  | String c0 s' =>
      let c := byteZ c0 in
      if negb ((48 <=? c) && (c <=? 57)) then (0, Some ErrSyntax)
      else
        let d := c - 48 in
        if cutoff <=? n then (maxVal, Some ErrRange)
        else
          let n := uint64 (n * 10) in
          let n1 := uint64 (n + d) in
          if (n1 <? n) || (maxVal <? n1) then (maxVal, Some ErrRange)
          else parseUint_loop cutoff maxVal n1 s'
  end.

(** [strconv.ParseUint s 10 bitSize] *)
Definition ParseUint (s : string) (bitSize : Z) : Z * option error :=
  if is_empty s then (0, Some ErrSyntax)
  else if (bitSize <? 0) || (64 <? bitSize) then (0, Some ErrBitSize)
  else
    let bitSize := if bitSize =? 0 then intSize else bitSize in
    let cutoff := maxUint64 / 10 + 1 in
    let maxVal := uint64 (uint64 (Z.shiftl 1 bitSize) - 1) in
    parseUint_loop cutoff maxVal 0 s.

(** [strconv.ParseInt s 10 bitSize] *)
Definition ParseInt (s : string) (bitSize : Z) : Z * option error :=
  match s with
  | EmptyString => (0, Some ErrSyntax)
  | String c0 s' =>
      let neg := byteZ c0 =? 45 in
      let s1 := if (byteZ c0 =? 43) || neg then s' else s in
      let '(un, err) := ParseUint s1 bitSize in
      match err with
      | Some ErrSyntax => (0, err)
      | Some ErrBitSize => (0, err)
      | _ =>
          let bitSize := if bitSize =? 0 then intSize else bitSize in
          let cutoff := uint64 (Z.shiftl 1 (bitSize - 1)) in
          if negb neg && (cutoff <=? un) then
            (int64 (cutoff - 1), Some ErrRange)
          else if neg && (cutoff <? un) then
            (int64 (- int64 cutoff), Some ErrRange)
          else
            let n := int64 un in
            (if neg then int64 (- n) else n, None)
      end
  end.

(** The digit loop of the fast path of [Atoi]. *)
Fixpoint atoi_fast_loop (n : Z) (s : string) : option Z :=
  match s with
  | EmptyString => Some n
  | String c0 s' =>
      let ch := uint8 (byteZ c0 - 48) in
      if 9 <? ch then None
      else atoi_fast_loop (to_int intSize (n * 10 + ch)) s'
  end.

(** [strconv.Atoi] *)
Definition Atoi (s : string) : Z * option error :=
  let sLen := Z.of_nat (String.length s) in
  if ((intSize =? 32) && ((0 <? sLen) && (sLen <? 10)))
     || ((intSize =? 64) && ((0 <? sLen) && (sLen <? 19))) then
    let sign := sbyte s 0 in
    let s1 := if (sign =? 45) || (sign =? 43) then sdrop 1 s else s in
    if (String.length s1 <? 1)%nat then (0, Some ErrSyntax)
    else
      match atoi_fast_loop 0 s1 with
      | None => (0, Some ErrSyntax)
      | Some n => (if sign =? 45 then to_int intSize (- n) else n, None)
      end
  else
    let '(i64, err) := ParseInt s 0 in
    (to_int intSize i64, err).

End IntSize.

End strconv.

(** ** float64 *)

(** IEEE 754 binary64 with round-to-nearest-even, as specified by the
    standard library's [SpecFloat]. *)
Module float64.

Definition prec : Z := 53.
Definition emax : Z := 1024.

Abbreviation t := spec_float.

(** [float64(n)] for an unsigned integer [n]. *)
Definition of_uint (n : Z) : t := binary_normalize prec emax n 0 false.

Definition mul : t -> t -> t := SFmul prec emax.
Definition div : t -> t -> t := SFdiv prec emax.

(** [uint64(x)] for a float [x]: truncation toward zero.  The callers
    below only convert finite values between 0 and 2^63. *)
Definition to_uint64 (x : t) : Z :=
  match x with
  | S754_finite false m e =>
      uint64 (if 0 <=? e then Z.shiftl (Zpos m) e
              else Z.shiftr (Zpos m) (- e))
  | _ => 0
  end.

End float64.

(** ** package time *)

Module time.

(** [time.Duration]: a signed 64-bit count of nanoseconds. *)
Abbreviation Duration := Z.

Definition Nanosecond : Duration := 1.
Definition Microsecond : Duration := 1000 * Nanosecond.
Definition Millisecond : Duration := 1000 * Microsecond.
Definition Second : Duration := 1000 * Millisecond.
Definition Minute : Duration := 60 * Second.
Definition Hour : Duration := 60 * Minute.

Inductive error :=
| InvalidDuration (orig : string)
| MissingUnit (orig : string)
| UnknownUnit (u orig : string).

(** The two spellings of the micro sign in UTF-8: U+00B5 and U+03BC. *)
Definition micro_sign : string := String (byte_of_Z 194) (String (byte_of_Z 181) EmptyString).
Definition greek_mu : string := String (byte_of_Z 206) (String (byte_of_Z 188) EmptyString).

(** The table [unitMap]. *)
Definition unitMap (u : string) : option Z :=
  if String.eqb u "ns" then Some Nanosecond
  else if String.eqb u "us" then Some Microsecond
  else if String.eqb u (micro_sign +:+ "s") then Some Microsecond
  else if String.eqb u (greek_mu +:+ "s") then Some Microsecond
  else if String.eqb u "ms" then Some Millisecond
  else if String.eqb u "s" then Some Second
  else if String.eqb u "m" then Some Minute
  else if String.eqb u "h" then Some Hour
  else None.

Definition is_digit (c : Z) : bool := (48 <=? c) && (c <=? 57).

(** [leadingInt]: the leading digits of [s] as an integer, and the rest
    of [s]; the flag is true on overflow (where [rem] is still its zero
    value). *)
Fixpoint leadingInt_loop (x : Z) (s : string) : Z * string * bool :=
  match s with
  | EmptyString => (x, s, false)
  | String c0 s' =>
      let c := byteZ c0 in
      if negb (is_digit c) then (x, s, false)
      else if 2 ^ 63 / 10 <? x then (0, EmptyString, true)
      else
        let x := uint64 (x * 10 + c - 48) in
        if 2 ^ 63 <? x then (0, EmptyString, true)
        else leadingInt_loop x s'
  end.

Definition leadingInt (s : string) : Z * string * bool :=
  leadingInt_loop 0 s.

(** [leadingFraction]: the leading digits of [s] as an integer [x] and a
    scale such that the fraction is [x / scale]; digits past the point
    of overflow are skipped. *)
Fixpoint leadingFraction_loop (x : Z) (scale : float64.t) (overflow : bool)
    (s : string) : Z * float64.t * string :=
  match s with
  | EmptyString => (x, scale, s)
  | String c0 s' =>
      let c := byteZ c0 in
      if negb (is_digit c) then (x, scale, s)
      else if overflow then leadingFraction_loop x scale true s'
      else if (2 ^ 63 - 1) / 10 <? x then
        leadingFraction_loop x scale true s'
      else
        let y := uint64 (x * 10 + c - 48) in
        if 2 ^ 63 <? y then leadingFraction_loop x scale true s'
        else
          leadingFraction_loop y (float64.mul scale (float64.of_uint 10))
            false s'
  end.

Definition leadingFraction (s : string) : Z * float64.t * string :=
  leadingFraction_loop 0 (float64.of_uint 1) false s.

(** The length of the unit: the bytes up to the next ['.'] or digit. *)
Fixpoint unit_length (s : string) : nat :=
  match s with
  | EmptyString => O
  | String c0 s' =>
      let c := byteZ c0 in
      if (c =? 46) || is_digit c then O else S (unit_length s')
  end.

Inductive loop_result :=
| Done (d : Z)
| Failed (e : error)
| OutOfFuel.

(** The loop [for s != ""] of [ParseDuration]; [d] is the sum so far.
    Every iteration consumes at least one byte of [s], so [fuel] equal
    to the length of [s] is enough (lemma [parse_loop_fuel]). *)
Fixpoint parse_loop (orig : string) (fuel : nat) (s : string) (d : Z)
    : loop_result :=
  match s with
  | EmptyString => Done d
  | String c0 _ =>
      match fuel with
      | O => OutOfFuel
      | S fuel' =>
          if negb ((byteZ c0 =? 46) || is_digit (byteZ c0)) then
            Failed (InvalidDuration orig)
          else
            let pl := String.length s in
            let '(v, s1, err) := leadingInt s in
            if err then Failed (InvalidDuration orig)
            else
              let pre := negb (pl =? String.length s1)%nat in
              let '(f, scale, s2, post) :=
                match s1 with
                | String c1 t1 =>
                    if byteZ c1 =? 46 then
                      let pl := String.length t1 in
                      let '(f, scale, s2) := leadingFraction t1 in
                      (f, scale, s2, negb (pl =? String.length s2)%nat)
                    else (0, float64.of_uint 1, s1, false)
                | EmptyString => (0, float64.of_uint 1, s1, false)
                end in
              if negb pre && negb post then Failed (InvalidDuration orig)
              else
                let i := unit_length s2 in
                if (i =? 0)%nat then Failed (MissingUnit orig)
                else
                  let u := slice s2 0 i in
                  let s3 := sdrop i s2 in
                  match unitMap u with
                  | None => Failed (UnknownUnit u orig)
                  | Some unit =>
                      if 2 ^ 63 / unit <? v then
                        Failed (InvalidDuration orig)
                      else
                        let v := uint64 (v * unit) in
                        let v' :=
                          if 0 <? f then
                            uint64 (v + float64.to_uint64
                              (float64.mul (float64.of_uint f)
                                 (float64.div (float64.of_uint unit) scale)))
                          else v in
                        if (0 <? f) && (2 ^ 63 <? v') then
                          Failed (InvalidDuration orig)
                        else
                          let d := uint64 (d + v') in
                          if 2 ^ 63 <? d then Failed (InvalidDuration orig)
                          else parse_loop orig fuel' s3 d
                  end
      end
  end.

(** [time.ParseDuration]; on an error the duration returned is 0. *)
Definition ParseDuration (s : string) : Duration * option error :=
  let orig := s in
  let '(neg, s) :=
    match s with
    | String c0 t0 =>
        if (byteZ c0 =? 45) || (byteZ c0 =? 43) then (byteZ c0 =? 45, t0)
        else (false, s)
    | EmptyString => (false, s)
    end in
  if String.eqb s "0" then (0, None)
  else if is_empty s then (0, Some (InvalidDuration orig))
  else
    match parse_loop orig (String.length s) s 0 with
    | Done d =>
        if neg then (int64 (- int64 d), None)
        else if 2 ^ 63 - 1 <? d then (0, Some (InvalidDuration orig))
        else (int64 d, None)
    | Failed e => (0, Some e)
    | OutOfFuel => (0, Some (InvalidDuration orig))
    end.

End time.

(** * package config *)

(** ** The snapshot *)

(** The value held in the field [MaxFileSize].  The struct declares the
    field as [int64], and the literal of [LoadConfig] stores an [int64]
    in it (line 100); the assignment after the literal stores a
    [map[string]int64] in the same field (line 140).  The type of the
    field in the embedding is the sum of the two, so that both writes are
    the ones of the source. *)
Inductive MaxFileSizeValue :=
| SizeLimit (n : Z)
| SizeLimitPerCategory (m : gmap string Z).

(** Modelled from the spec: the declarations of the three fields
    [AllowedImageTypes], [AllowedVideoTypes] and [AllowedDocumentTypes]
    (the allowed MIME types per category, three ordered sequences of
    strings), which [LoadConfig] assigns and the declaration of the
    struct does not list; they are the last three fields.  The other
    fields are those of the declaration of [Config], in its order. *)
Record Config := {
  ServerPort : string;
  ServerHost : string;
  ApiKeys : string;
  AllowedOrigins : list string;
  RateLimitAttempts : Z;
  RateLimitDuration : time.Duration;
  MaxFileSize : MaxFileSizeValue;
  SkippedApiEndpoints : list string;
  TrustedProxies : list string;
  CookieDomain : string;
  DatabaseRootURL : string;
  DatabaseName : string;
  DatabaseURL : string;
  RedisAddress : string;
  RedisPassword : string;
  AccessTokenSecret : string;
  RefreshTokenSecret : string;
  SMTPHost : string;
  SMTPPort : Z;
  SMTPEmail : string;
  SMTPPassword : string;
  AppName : string;
  AppEnv : string;
  FrontendURL : string;
  CloudName : string;
  CloudSecret : string;
  CloudApiKey : string;
  CloudFolder : string;
  GoogleClientID : string;
  GoogleClientSecret : string;
  GoogleRedirectURL : string;
  FrontendRedirectURL : string;
  StripeWebhookSecret : string;
  StripeCancelUrlDev : string;
  StripeSuccessUrlDev : string;
  StripeCancelUrlProd : string;
  StripeSuccessUrlProd : string;
  StripeSecretKey : string;
  StripePublishableKey : string;
  AllowedImageTypes : list string;
  AllowedVideoTypes : list string;
  AllowedDocumentTypes : list string
}.

(** Stores through the pointer [AppConfig] after the literal. *)
Definition set_MaxFileSize (v : MaxFileSizeValue) (c : Config) : Config :=
  {| ServerPort := ServerPort c; ServerHost := ServerHost c;
     ApiKeys := ApiKeys c; AllowedOrigins := AllowedOrigins c;
     RateLimitAttempts := RateLimitAttempts c;
     RateLimitDuration := RateLimitDuration c; MaxFileSize := v;
     SkippedApiEndpoints := SkippedApiEndpoints c;
     TrustedProxies := TrustedProxies c; CookieDomain := CookieDomain c;
     DatabaseRootURL := DatabaseRootURL c; DatabaseName := DatabaseName c;
     DatabaseURL := DatabaseURL c; RedisAddress := RedisAddress c;
     RedisPassword := RedisPassword c;
     AccessTokenSecret := AccessTokenSecret c;
     RefreshTokenSecret := RefreshTokenSecret c; SMTPHost := SMTPHost c;
     SMTPPort := SMTPPort c; SMTPEmail := SMTPEmail c;
     SMTPPassword := SMTPPassword c; AppName := AppName c; AppEnv := AppEnv c;
     FrontendURL := FrontendURL c; CloudName := CloudName c;
     CloudSecret := CloudSecret c; CloudApiKey := CloudApiKey c;
     CloudFolder := CloudFolder c; GoogleClientID := GoogleClientID c;
     GoogleClientSecret := GoogleClientSecret c;
     GoogleRedirectURL := GoogleRedirectURL c;
     FrontendRedirectURL := FrontendRedirectURL c;
     StripeWebhookSecret := StripeWebhookSecret c;
     StripeCancelUrlDev := StripeCancelUrlDev c;
     StripeSuccessUrlDev := StripeSuccessUrlDev c;
     StripeCancelUrlProd := StripeCancelUrlProd c;
     StripeSuccessUrlProd := StripeSuccessUrlProd c;
     StripeSecretKey := StripeSecretKey c;
     StripePublishableKey := StripePublishableKey c;
     AllowedImageTypes := AllowedImageTypes c;
     AllowedVideoTypes := AllowedVideoTypes c;
     AllowedDocumentTypes := AllowedDocumentTypes c |}.

Definition set_AllowedImageTypes (v : list string) (c : Config) : Config :=
  {| ServerPort := ServerPort c; ServerHost := ServerHost c;
     ApiKeys := ApiKeys c; AllowedOrigins := AllowedOrigins c;
     RateLimitAttempts := RateLimitAttempts c;
     RateLimitDuration := RateLimitDuration c; MaxFileSize := MaxFileSize c;
     SkippedApiEndpoints := SkippedApiEndpoints c;
     TrustedProxies := TrustedProxies c; CookieDomain := CookieDomain c;
     DatabaseRootURL := DatabaseRootURL c; DatabaseName := DatabaseName c;
     DatabaseURL := DatabaseURL c; RedisAddress := RedisAddress c;
     RedisPassword := RedisPassword c;
     AccessTokenSecret := AccessTokenSecret c;
     RefreshTokenSecret := RefreshTokenSecret c; SMTPHost := SMTPHost c;
     SMTPPort := SMTPPort c; SMTPEmail := SMTPEmail c;
     SMTPPassword := SMTPPassword c; AppName := AppName c; AppEnv := AppEnv c;
     FrontendURL := FrontendURL c; CloudName := CloudName c;
     CloudSecret := CloudSecret c; CloudApiKey := CloudApiKey c;
     CloudFolder := CloudFolder c; GoogleClientID := GoogleClientID c;
     GoogleClientSecret := GoogleClientSecret c;
     GoogleRedirectURL := GoogleRedirectURL c;
     FrontendRedirectURL := FrontendRedirectURL c;
     StripeWebhookSecret := StripeWebhookSecret c;
     StripeCancelUrlDev := StripeCancelUrlDev c;
     StripeSuccessUrlDev := StripeSuccessUrlDev c;
     StripeCancelUrlProd := StripeCancelUrlProd c;
     StripeSuccessUrlProd := StripeSuccessUrlProd c;
     StripeSecretKey := StripeSecretKey c;
     StripePublishableKey := StripePublishableKey c; AllowedImageTypes := v;
     AllowedVideoTypes := AllowedVideoTypes c;
     AllowedDocumentTypes := AllowedDocumentTypes c |}.

Definition set_AllowedVideoTypes (v : list string) (c : Config) : Config :=
  {| ServerPort := ServerPort c; ServerHost := ServerHost c;
     ApiKeys := ApiKeys c; AllowedOrigins := AllowedOrigins c;
     RateLimitAttempts := RateLimitAttempts c;
     RateLimitDuration := RateLimitDuration c; MaxFileSize := MaxFileSize c;
     SkippedApiEndpoints := SkippedApiEndpoints c;
     TrustedProxies := TrustedProxies c; CookieDomain := CookieDomain c;
     DatabaseRootURL := DatabaseRootURL c; DatabaseName := DatabaseName c;
     DatabaseURL := DatabaseURL c; RedisAddress := RedisAddress c;
     RedisPassword := RedisPassword c;
     AccessTokenSecret := AccessTokenSecret c;
     RefreshTokenSecret := RefreshTokenSecret c; SMTPHost := SMTPHost c;
     SMTPPort := SMTPPort c; SMTPEmail := SMTPEmail c;
     SMTPPassword := SMTPPassword c; AppName := AppName c; AppEnv := AppEnv c;
     FrontendURL := FrontendURL c; CloudName := CloudName c;
     CloudSecret := CloudSecret c; CloudApiKey := CloudApiKey c;
     CloudFolder := CloudFolder c; GoogleClientID := GoogleClientID c;
     GoogleClientSecret := GoogleClientSecret c;
     GoogleRedirectURL := GoogleRedirectURL c;
     FrontendRedirectURL := FrontendRedirectURL c;
     StripeWebhookSecret := StripeWebhookSecret c;
     StripeCancelUrlDev := StripeCancelUrlDev c;
     StripeSuccessUrlDev := StripeSuccessUrlDev c;
     StripeCancelUrlProd := StripeCancelUrlProd c;
     StripeSuccessUrlProd := StripeSuccessUrlProd c;
     StripeSecretKey := StripeSecretKey c;
     StripePublishableKey := StripePublishableKey c;
     AllowedImageTypes := AllowedImageTypes c; AllowedVideoTypes := v;
     AllowedDocumentTypes := AllowedDocumentTypes c |}.

Definition set_AllowedDocumentTypes (v : list string) (c : Config) : Config :=
  {| ServerPort := ServerPort c; ServerHost := ServerHost c;
     ApiKeys := ApiKeys c; AllowedOrigins := AllowedOrigins c;
     RateLimitAttempts := RateLimitAttempts c;
     RateLimitDuration := RateLimitDuration c; MaxFileSize := MaxFileSize c;
     SkippedApiEndpoints := SkippedApiEndpoints c;
     TrustedProxies := TrustedProxies c; CookieDomain := CookieDomain c;
     DatabaseRootURL := DatabaseRootURL c; DatabaseName := DatabaseName c;
     DatabaseURL := DatabaseURL c; RedisAddress := RedisAddress c;
     RedisPassword := RedisPassword c;
     AccessTokenSecret := AccessTokenSecret c;
     RefreshTokenSecret := RefreshTokenSecret c; SMTPHost := SMTPHost c;
     SMTPPort := SMTPPort c; SMTPEmail := SMTPEmail c;
     SMTPPassword := SMTPPassword c; AppName := AppName c; AppEnv := AppEnv c;
     FrontendURL := FrontendURL c; CloudName := CloudName c;
     CloudSecret := CloudSecret c; CloudApiKey := CloudApiKey c;
     CloudFolder := CloudFolder c; GoogleClientID := GoogleClientID c;
     GoogleClientSecret := GoogleClientSecret c;
     GoogleRedirectURL := GoogleRedirectURL c;
     FrontendRedirectURL := FrontendRedirectURL c;
     StripeWebhookSecret := StripeWebhookSecret c;
     StripeCancelUrlDev := StripeCancelUrlDev c;
     StripeSuccessUrlDev := StripeSuccessUrlDev c;
     StripeCancelUrlProd := StripeCancelUrlProd c;
     StripeSuccessUrlProd := StripeSuccessUrlProd c;
     StripeSecretKey := StripeSecretKey c;
     StripePublishableKey := StripePublishableKey c;
     AllowedImageTypes := AllowedImageTypes c;
     AllowedVideoTypes := AllowedVideoTypes c; AllowedDocumentTypes := v |}.

(** ** Process state and effects *)

(** The process-wide state the package touches: the package variable
    [AppConfig] (a pointer, [None] when nil) and what has been written to
    standard output. *)
Record World := {
  AppConfig : option Config;
  stdout : list string
}.

Inductive panic :=
| NilDereference.

Inductive outcome (A : Type) :=
| Ok (a : A) (w : World)
| Panicked (p : panic) (w : World).
Arguments Ok {A} a w.
Arguments Panicked {A} p w.

Definition M (A : Type) : Type := World -> outcome A.

#[export] Instance M_ret : MRet M := fun A a w => Ok a w.

#[export] Instance M_bind : MBind M := fun A B k m w =>
  match m w with
  | Ok a w' => k a w'
  | Panicked p w' => Panicked p w'
  end.

(** [AppConfig = p] *)
Definition assign_AppConfig (p : option Config) : M unit :=
  fun w => Ok tt {| AppConfig := p; stdout := stdout w |}.

(** [*AppConfig] as a value to read a field from. *)
Definition load_AppConfig : M Config :=
  fun w =>
    match AppConfig w with
    | Some c => Ok c w
    | None => Panicked NilDereference w
    end.

(** [AppConfig.f = v], with [upd] the update of the field [f]. *)
Definition store_AppConfig (upd : Config -> Config) : M unit :=
  fun w =>
    match AppConfig w with
    | Some c => Ok tt {| AppConfig := Some (upd c); stdout := stdout w |}
    | None => Panicked NilDereference w
    end.

(** [fmt.Println(s)] *)
Definition Println (s : string) : M unit :=
  fun w =>
    Ok tt {| AppConfig := AppConfig w;
             stdout := stdout w ++ [s +:+ String (byte_of_Z 10) EmptyString] |}.

(** ** Helper functions for parsing environment variables *)

Definition getEnvOrDefault (env : os.Env) (key defaultValue : string) : string :=
  let value := os.Getenv env key in
  if negb (is_empty value) then value else defaultValue.

(** [intSize] is the width of Go's [int] on the target, which
    [strconv.Atoi] depends on; it is a parameter of everything that
    parses an [int]. *)
Definition getEnvAsInt (intSize : Z) (env : os.Env) (key : string)
    (defaultValue : Z) : Z :=
  let value := os.Getenv env key in
  if negb (is_empty value) then
    match strconv.Atoi intSize value with
    | (parsed, None) => parsed
    | (_, Some _) => defaultValue
    end
  else defaultValue.

Definition getEnvAsInt64 (intSize : Z) (env : os.Env) (key : string)
    (defaultValue : Z) : Z :=
  let value := os.Getenv env key in
  if negb (is_empty value) then
    match strconv.ParseInt intSize value 64 with
    | (parsed, None) => parsed
    | (_, Some _) => defaultValue
    end
  else defaultValue.

Definition getEnvAsDuration (env : os.Env) (key defaultValue : string)
    : time.Duration :=
  let value := os.Getenv env key in
  let value := if is_empty value then defaultValue else value in
  match time.ParseDuration value with
  | (duration, None) => duration
  | (_, Some _) =>
      let '(duration, _) := time.ParseDuration defaultValue in
      duration
  end.

(** The body of the loop of [getEnvAsStringSlice]. *)
Definition collect_item (result : list string) (item : string) : list string :=
  let trimmed := strings.TrimSpace item in
  if negb (is_empty trimmed) then result ++ [trimmed] else result.

Definition getEnvAsStringSlice (env : os.Env) (key : string)
    (defaultValue : list string) : list string :=
  let value := os.Getenv env key in
  if is_empty value then defaultValue
  else fold_left collect_item (strings.SplitSeq value ",") [].

(** ** LoadConfig *)

(** The completion notice, with the bytes of the literal in the source. *)
Definition completion_notice : string :=
  String.string_of_list_ascii
    (map byte_of_Z [195; 162; 197; 147; 226; 128; 166])
  +:+ " Global configuration load complete".

(** The composite literal of [LoadConfig] (lines 76 to 134).  The three
    fields the literal does not mention have their zero value, nil. *)
Definition config_literal (intSize : Z) (env : os.Env) : Config :=
  {| ServerPort := getEnvOrDefault env "PORT" "8080";
     ServerHost := getEnvOrDefault env "HOST" "localhost";

     GoogleClientID := getEnvOrDefault env "GOOGLE_CLIENT_ID" "your-google-client-id";
     GoogleClientSecret := getEnvOrDefault env "GOOGLE_CLIENT_SECRET" "your-google-client-secret";
     GoogleRedirectURL := getEnvOrDefault env "GOOGLE_REDIRECT_URL" "http://localhost:5005/api/v1/users/google/callback";
     FrontendRedirectURL := getEnvOrDefault env "FRONTEND_REDIRECT_URL" "http://localhost:5173";

     StripeWebhookSecret := getEnvOrDefault env "STRIPE_WEBHOOK_SECRET" "your-stripe-webhook-secret";
     StripeCancelUrlDev := getEnvOrDefault env "STRIPE_CANCEL_URL_DEV" "http://localhost:5173/checkout/cancel";
     StripeSuccessUrlDev := getEnvOrDefault env "STRIPE_SUCCESS_URL_DEV" "http://localhost:5173/checkout/success";
     StripeCancelUrlProd := getEnvOrDefault env "STRIPE_CANCEL_URL_PROD" "https://your-production-url/checkout/cancel";
     StripeSuccessUrlProd := getEnvOrDefault env "STRIPE_SUCCESS_URL_PROD" "https://your-production-url/checkout/success";
     StripeSecretKey := getEnvOrDefault env "STRIPE_SECRET_KEY" "your-stripe-secret-key";
     StripePublishableKey := getEnvOrDefault env "STRIPE_PUBLISHABLE_KEY" "your-stripe-publishable-key";

     CookieDomain := getEnvOrDefault env "COOKIE_DOMAIN" "localhost";
     ApiKeys := getEnvOrDefault env "API_KEY" "your-api-keys";
     RateLimitAttempts := getEnvAsInt intSize env "RATE_LIMIT_ATTEMPTS" 100;
     RateLimitDuration := getEnvAsDuration env "RATE_LIMIT_DURATION" "60s";
     MaxFileSize := SizeLimit (getEnvAsInt64 intSize env "MAX_FILE_SIZE" (Z.shiftl 12 20));
     TrustedProxies := getEnvAsStringSlice env "TRUSTED_PROXIES" ["localhost"];
     SkippedApiEndpoints := getEnvAsStringSlice env "SKIPPED_API_ENDPOINTS" ["/health"];
     AllowedOrigins := getEnvAsStringSlice env "ALLOWED_ORIGINS" ["http://localhost:3000"];

     DatabaseRootURL := getEnvOrDefault env "DB_ROOT_URL" "your-db-root-url";
     DatabaseName := getEnvOrDefault env "DB_NAME" "your-db-name";
     DatabaseURL := getEnvOrDefault env "DB_URL" "your-db-url";

     RedisAddress := getEnvOrDefault env "REDIS_ADDRESS" "localhost:6379";
     RedisPassword := getEnvOrDefault env "REDIS_PASSWORD" "";

     AccessTokenSecret := getEnvOrDefault env "ACCESS_TOKEN_SECRET" "your-secret-key";
     RefreshTokenSecret := getEnvOrDefault env "REFRESH_TOKEN_SECRET" "your-refresh-token-secret";

     SMTPEmail := getEnvOrDefault env "SMTP_EMAIL" "";
     SMTPPort := getEnvAsInt intSize env "SMTP_PORT" 587;
     SMTPHost := getEnvOrDefault env "SMTP_HOST" "";
     SMTPPassword := getEnvOrDefault env "SMTP_PASSWORD" "";

     AppName := getEnvOrDefault env "APP_NAME" "Asset Management System";
     AppEnv := getEnvOrDefault env "APP_ENV" "development";
     FrontendURL := getEnvOrDefault env "FRONTEND_URL" "http://localhost:5173";

     CloudName := getEnvOrDefault env "CLOUDINARY_CLOUD_NAME" "your-cloudinary-cloud-name";
     CloudSecret := getEnvOrDefault env "CLOUDINARY_API_SECRET" "your-cloudinary-api-secret";
     CloudApiKey := getEnvOrDefault env "CLOUDINARY_API_KEY" "your-cloudinary-api-key";
     CloudFolder := getEnvOrDefault env "CLOUDINARY_FOLDER" "asset_management_app";

     AllowedImageTypes := [];
     AllowedVideoTypes := [];
     AllowedDocumentTypes := [] |}.

(** The map literal assigned to [AppConfig.MaxFileSize] (lines 140 to 144). *)
Definition max_file_size_literal (intSize : Z) (env : os.Env) : gmap string Z :=
  <["images" := getEnvAsInt64 intSize env "MAX_IMAGE_SIZE" (Z.shiftl 2 20)]>
  (<["videos" := getEnvAsInt64 intSize env "MAX_VIDEO_SIZE" (Z.shiftl 100 20)]>
  (<["documents" := getEnvAsInt64 intSize env "MAX_DOCUMENT_SIZE" (Z.shiftl 10 20)]>
   ∅)).

Definition LoadConfig (intSize : Z) (env : os.Env) : M unit :=
  assign_AppConfig (Some (config_literal intSize env)) ;;
  store_AppConfig (set_AllowedImageTypes
    (getEnvAsStringSlice env "ALLOWED_IMAGE_TYPES" ["image/jpeg"; "image/png"])) ;;
  store_AppConfig (set_AllowedVideoTypes
    (getEnvAsStringSlice env "ALLOWED_VIDEO_TYPES" ["video/mp4"])) ;;
  store_AppConfig (set_AllowedDocumentTypes
    (getEnvAsStringSlice env "ALLOWED_DOCUMENT_TYPES" ["application/pdf"])) ;;
  store_AppConfig (set_MaxFileSize
    (SizeLimitPerCategory (max_file_size_literal intSize env))) ;;
  Println completion_notice.

(** ** Derived accessors *)

Definition GetServerAddress : M string :=
  c ← load_AppConfig;
  mret (ServerHost c +:+ ":" +:+ ServerPort c).

Definition IsProduction : M bool :=
  c ← load_AppConfig;
  mret (bool_decide (AppEnv c = "production")).

Definition IsDevelopment : M bool :=
  c ← load_AppConfig;
  mret (bool_decide (AppEnv c = "development")).

(** * Specification-level definitions *)

(** ** Runs of the package *)

(** The world of a process that has not called [LoadConfig]. *)
Definition initial_world : World := {| AppConfig := None; stdout := [] |}.

(** The value an outcome carries, if it is not a panic. *)
Definition value_of {A : Type} (o : outcome A) : option A :=
  match o with
  | Ok a _ => Some a
  | Panicked _ _ => None
  end.

(** The world an outcome leaves. *)
Definition world_of {A : Type} (o : outcome A) : World :=
  match o with
  | Ok _ w => w
  | Panicked _ w => w
  end.

(** The snapshot reference after a run of [LoadConfig] from the world [w]. *)
Definition installed (intSize : Z) (env : os.Env) (w : World) : option Config :=
  AppConfig (world_of (LoadConfig intSize env w)).

(** The struct a run of [LoadConfig] leaves behind [AppConfig]: the
    literal, then the four stores through the pointer (lemma
    [LoadConfig_run]). *)
Definition snapshot (intSize : Z) (env : os.Env) : Config :=
  set_MaxFileSize (SizeLimitPerCategory (max_file_size_literal intSize env))
    (set_AllowedDocumentTypes
       (getEnvAsStringSlice env "ALLOWED_DOCUMENT_TYPES" ["application/pdf"])
       (set_AllowedVideoTypes
          (getEnvAsStringSlice env "ALLOWED_VIDEO_TYPES" ["video/mp4"])
          (set_AllowedImageTypes
             (getEnvAsStringSlice env "ALLOWED_IMAGE_TYPES"
                ["image/jpeg"; "image/png"])
             (config_literal intSize env)))).

(** What one call of [LoadConfig] adds to standard output. *)
Definition notice_line : string :=
  completion_notice +:+ String (byte_of_Z 10) EmptyString.

(** ** Environment variables *)

(** The variable is unset or set to the empty string. *)
Definition unset_or_empty (env : os.Env) (key : string) : Prop :=
  env !! key = None \/ env !! key = Some EmptyString.



(** The variables read with [getEnvAsInt]. *)
Definition int_variables : list string :=
  ["RATE_LIMIT_ATTEMPTS"; "SMTP_PORT"].

(** The variables read with [getEnvAsInt64]. *)
Definition int64_variables : list string :=
  ["MAX_FILE_SIZE"; "MAX_IMAGE_SIZE"; "MAX_VIDEO_SIZE"; "MAX_DOCUMENT_SIZE"].

(** ** String sequences *)

(** The byte [sep] does not occur in [s]. *)
Fixpoint free_of (sep : ascii) (s : string) : Prop :=
  match s with
  | EmptyString => True
  | String c s' => c <> sep /\ free_of sep s'
  end.

(** Every byte of [s] satisfies [P]. *)
Fixpoint all_bytes (P : Z -> bool) (s : string) : bool :=
  match s with
  | EmptyString => true
  | String c s' => P (byteZ c) && all_bytes P s'
  end.

(** The specification of trimming for strings of ASCII bytes: the string
    without its leading and without its trailing ASCII white space. *)
Fixpoint drop_leading_spaces (s : string) : string :=
  match s with
  | EmptyString => EmptyString
  | String c t =>
      if strings.asciiSpace (byteZ c) then drop_leading_spaces t else s
  end.

Fixpoint drop_trailing_spaces (s : string) : string :=
  match s with
  | EmptyString => EmptyString
  | String c t =>
      let r := drop_trailing_spaces t in
      if is_empty r && strings.asciiSpace (byteZ c) then EmptyString
      else String c r
  end.

Definition spec_trim_ascii (s : string) : string :=
  drop_trailing_spaces (drop_leading_spaces s).

(** The byte is an ASCII byte. *)
Definition is_ascii (c : Z) : bool := c <? utf8.RuneSelf.

(** A string is white space only when every rune of it is a Unicode white
    space ([unicode.IsSpace]); the empty string is. *)
Definition whitespace_only (s : string) : Prop :=
  forallb unicode.IsSpace (strings.runes s) = true.

(** The sequence the specification describes: split on commas, trim
    white space from each element, drop the empty elements. *)
Definition spec_split_trim_drop (value : string) : list string :=
  filter (fun x : string => x <> EmptyString)
    (strings.TrimSpace <$> strings.SplitSeq value ",").

(** ** Base-10 integers *)

(** The value of a decimal digit. *)
Definition digit_value (c : ascii) : option Z :=
  let z := byteZ c in
  if (48 <=? z) && (z <=? 57) then Some (z - 48) else None.

(** The value of a string of decimal digits read after the value [acc]. *)
Fixpoint digits_value (acc : Z) (s : string) : option Z :=
  match s with
  | EmptyString => Some acc
  | String c s' =>
      match digit_value c with
      | Some d => digits_value (acc * 10 + d) s'
      | None => None
      end
  end.

(** The specification of a base-10 integer: an optional sign, then one or
    more decimal digits and nothing else. *)
Definition spec_decimal_integer (s : string) : option Z :=
  match s with
  | EmptyString => None
  | String c t =>
      if byteZ c =? 43 then
        if is_empty t then None else digits_value 0 t
      else if byteZ c =? 45 then
        if is_empty t then None else Z.opp <$> digits_value 0 t
      else digits_value 0 s
  end.

(** The value of [s] as a base-10 integer that fits a signed integer of
    [w] bits, if [s] is one. *)
Definition spec_parse_int (w : Z) (s : string) : option Z :=
  match spec_decimal_integer s with
  | Some n =>
      if (- 2 ^ (w - 1) <=? n) && (n <? 2 ^ (w - 1)) then Some n else None
  | None => None
  end.

(** The variable is unset, empty, or set to a string that is not a
    base-10 integer fitting [w] bits. *)
Definition not_an_integer (w : Z) (env : os.Env) (key : string) : Prop :=
  match env !! key with
  | None => True
  | Some v => spec_parse_int w v = None
  end.

(** The part of [strconv.ParseInt] that follows the call of [ParseUint],
    for the width [eff] in effect; it names that part in the lemmas
    about [ParseInt]. *)
Definition finish_ParseInt (eff : Z) (neg : bool)
    (res : Z * option strconv.error) : Z * option strconv.error :=
  let '(un, err) := res in
  match err with
  | Some strconv.ErrSyntax => (0, err)
  | Some strconv.ErrBitSize => (0, err)
  | _ =>
      let cutoff := uint64 (Z.shiftl 1 (eff - 1)) in
      if negb neg && (cutoff <=? un) then
        (int64 (cutoff - 1), Some strconv.ErrRange)
      else if neg && (cutoff <? un) then
        (int64 (- int64 cutoff), Some strconv.ErrRange)
      else
        let n := int64 un in
        (if neg then int64 (- n) else n, None)
  end.

(** ** Concrete environments and worlds *)

(** [APP_ENV=production] and the world after loading it. *)
Definition production_env : os.Env := {[ "APP_ENV" := "production" ]}.

Definition production_world : World :=
  world_of (LoadConfig 64 production_env initial_world).

(** [TRUSTED_PROXIES] with blanks and an empty element, and with nothing
    but blanks and commas. *)
Definition proxies_env : os.Env := {[ "TRUSTED_PROXIES" := "a, b ,,c" ]}.

Definition blank_proxies_env : os.Env := {[ "TRUSTED_PROXIES" := " , ," ]}.

(** [RATE_LIMIT_DURATION] well formed and malformed. *)
Definition two_seconds_env : os.Env := {[ "RATE_LIMIT_DURATION" := "2s" ]}.

Definition bad_duration_env : os.Env :=
  {[ "RATE_LIMIT_DURATION" := "notaduration" ]}.

(** Integer variables: not a number, out of the range of 64 bits, and a
    valid byte count. *)
Definition bad_attempts_env : os.Env :=
  {[ "RATE_LIMIT_ATTEMPTS" := "12 attempts" ]}.

Definition bad_image_size_env : os.Env :=
  {[ "MAX_IMAGE_SIZE" := "9223372036854775808" ]}.



(** [HOST] and [PORT] set, and the world after loading them. *)
Definition host_env : os.Env :=
  {[ "HOST" := "api.example.com"; "PORT" := "9090" ]}.

Definition host_world : World :=
  world_of (LoadConfig 64 host_env initial_world).


(** [APP_ENV] set to a mode that is neither production nor development. *)
Definition staging_env : os.Env := {[ "APP_ENV" := "staging" ]}.

(** ** Known values of the library functions *)

(** A string given by its bytes. *)
Definition bytes (l : list Z) : string :=
  String.string_of_list_ascii (map byte_of_Z l).

(** U+00A0, U+2000, U+3000 and U+263A in UTF-8, and two bytes that are
    not UTF-8. *)
Definition nbsp : string := bytes [194; 160].
Definition en_quad : string := bytes [226; 128; 128].
Definition ideographic_space : string := bytes [227; 128; 128].
Definition smiley : string := bytes [226; 152; 186].
Definition stray_bytes : string := bytes [192; 192].

(** Inputs of [strings.TrimSpace] with the results of the Go function. *)
Definition TrimSpace_vectors : list (string * string) :=
  [ ("", ""); ("  a", "a"); ("b  ", "b"); ("abc", "abc"); (" ", "");
    (bytes [9; 11; 13; 12; 10] +:+ "abc" +:+ bytes [9; 11; 13; 12; 10], "abc");
    (nbsp +:+ en_quad +:+ "abc" +:+ ideographic_space +:+ nbsp, "abc");
    (ideographic_space +:+ " ", ""); (" " +:+ ideographic_space, "");
    ("1 " +:+ bytes [9; 13; 10] +:+ "2", "1 " +:+ bytes [9; 13; 10] +:+ "2");
    (" x" +:+ bytes [128], "x" +:+ bytes [128]);
    ("x " +:+ stray_bytes +:+ " ", "x " +:+ stray_bytes);
    ("x " +:+ smiley +:+ stray_bytes +:+ " ", "x " +:+ smiley +:+ stray_bytes);
    ("x " +:+ smiley +:+ " ", "x " +:+ smiley) ].

(** Inputs of [time.ParseDuration] with the durations of the Go function,
    in nanoseconds; the fractions of hours go through [float64]. *)
Definition ParseDuration_vectors : list (string * Z) :=
  [ ("0", 0); ("5s", 5000000000); ("-5s", -5000000000); ("+5s", 5000000000);
    ("-0", 0); ("5.6s", 5600000000); ("5.s", 5000000000);
    (".5s", 500000000); ("1.0040s", 1004000000);
    ("100.00100s", 100001000000); ("10ns", 10); ("11us", 11000);
    ("12" +:+ time.micro_sign +:+ "s", 12000);
    ("12" +:+ time.greek_mu +:+ "s", 12000); ("13ms", 13000000);
    ("15m", 900000000000); ("16h", 57600000000000);
    ("3h30m", 12600000000000); ("10.5s4m", 250500000000);
    ("-2m3.4s", -123400000000); ("1h2m3s4ms5us6ns", 3723004005006);
    ("39h9m14.425s", 140954425000000);
    ("0.3333333333333333333h", 1200000000000);
    ("9007199254740993ns", 9007199254740993);
    ("9223372036854775807ns", 9223372036854775807);
    ("9223372036854775.807us", 9223372036854775807);
    ("-9223372036854775808ns", -9223372036854775808);
    ("-2562047h47m16.854775808s", -9223372036854775808);
    ("0.100000000000000000000h", 360000000000);
    ("0.830103483285477580700h", 2988372539827) ].

(** Inputs [time.ParseDuration] rejects. *)
Definition ParseDuration_rejected : list string :=
  [ ""; "3"; "-"; "s"; "."; "-."; ".s"; "+.s"; "1d"; "notaduration";
    "9223372036854775810ns"; "9223372036854775808ns";
    "-9223372036854775809ns"; "9223373h"; "2562047h47m16.854775808s";
    "9223372036854775.808us" ].

(** Inputs of [strconv.ParseInt] at base 10 with the results of the Go
    function for 64 and for 32 bits: the value, and whether the error is
    nil, a syntax error or a range error. *)
Definition ParseInt64_vectors : list (string * (Z * option strconv.error)) :=
  [ ("", (0, Some strconv.ErrSyntax)); ("0", (0, None)); ("-0", (0, None));
    ("+1", (1, None)); ("12345", (12345, None)); ("-012345", (-12345, None));
    ("98765432100", (98765432100, None));
    ("9223372036854775807", (9223372036854775807, None));
    ("9223372036854775808", (9223372036854775807, Some strconv.ErrRange));
    ("-9223372036854775808", (-9223372036854775808, None));
    ("-9223372036854775809", (-9223372036854775808, Some strconv.ErrRange));
    ("-1_2_3_4_5", (0, Some strconv.ErrSyntax));
    ("12345x", (0, Some strconv.ErrSyntax));
    ("0x10", (0, Some strconv.ErrSyntax)); (" 1", (0, Some strconv.ErrSyntax)) ].

Definition ParseInt32_vectors : list (string * (Z * option strconv.error)) :=
  [ ("", (0, Some strconv.ErrSyntax)); ("0", (0, None)); ("-1", (-1, None));
    ("012345", (12345, None)); ("12345x", (0, Some strconv.ErrSyntax));
    ("987654321", (987654321, None)); ("2147483647", (2147483647, None));
    ("2147483648", (2147483647, Some strconv.ErrRange));
    ("-2147483648", (-2147483648, None));
    ("-2147483649", (-2147483648, Some strconv.ErrRange));
    ("12345_", (0, Some strconv.ErrSyntax)) ].

Definition same_result (a b : Z * option strconv.error) : bool :=
  (a.1 =? b.1) &&
  match a.2, b.2 with
  | None, None => true
  | Some strconv.ErrSyntax, Some strconv.ErrSyntax => true
  | Some strconv.ErrRange, Some strconv.ErrRange => true
  | _, _ => false
  end.

(** ** The string attributes *)







(** ** Elements of a string sequence *)

(** The byte is not a comma. *)
Definition not_comma (c : Z) : bool := negb (c =? 44).

(** The string starts, or ends, with an ASCII white space. *)
Definition starts_with_space (s : string) : bool :=
  match s with
  | EmptyString => false
  | String c _ => strings.asciiSpace (byteZ c)
  end.

Fixpoint ends_with_space (s : string) : bool :=
  match s with
  | EmptyString => false
  | String c EmptyString => strings.asciiSpace (byteZ c)
  | String _ t => ends_with_space t
  end.

(** Environments with a sequence variable. *)
Definition origins_env : os.Env :=
  {[ "ALLOWED_ORIGINS" := "https://a.example , https://b.example,, " ]}.

(** ** Decimal notation *)

(** The digit [d] as a byte. *)
Definition digit_char (d : Z) : ascii := byte_of_Z (48 + d).

(** The digits of [n], most significant first, for [0 <= n < 2 ^ fuel]. *)
Fixpoint render_digits (fuel : nat) (n : Z) : string :=
  match fuel with
  | O => EmptyString
  | S fuel' =>
      if n <? 10 then String (digit_char n) EmptyString
      else render_digits fuel' (n / 10)
           +:+ String (digit_char (n mod 10)) EmptyString
  end.

(** The usual decimal notation of an integer: a minus sign for a negative
    number, then the digits without leading zeros. *)
Definition decimal (n : Z) : string :=
  if n <? 0 then
    String (byte_of_Z 45) (render_digits (S (Z.to_nat (Z.log2 (- n)))) (- n))
  else render_digits (S (Z.to_nat (Z.log2 n))) n.

(** [n] fits a signed integer of [w] bits. *)
Definition fits (w n : Z) : Prop := - 2 ^ (w - 1) <= n < 2 ^ (w - 1).

(** Environments with integer variables in decimal notation. *)
Definition attempts_env : os.Env :=
  {[ "RATE_LIMIT_ATTEMPTS" := decimal 250; "SMTP_PORT" := decimal (-1) ]}.

(** ** Durations written as a whole number and a unit *)

(** The units of [time.ParseDuration] with their lengths in nanoseconds. *)
Definition duration_units : list (string * Z) :=
  [ ("ns", 1); ("us", 1000); (time.micro_sign +:+ "s", 1000);
    (time.greek_mu +:+ "s", 1000); ("ms", 1000000); ("s", 1000000000);
    ("m", 60000000000); ("h", 3600000000000) ].

(** Environments with a duration variable. *)
Definition ninety_minutes_env : os.Env := {[ "RATE_LIMIT_DURATION" := "90m" ]}.

(** * Properties *)

(** ** Basic facts *)

Lemma is_empty_true (s : string) : is_empty s = true <-> s = EmptyString.
Proof. destruct s; simpl; split; congruence. Qed.

Lemma is_empty_false (s : string) : is_empty s = false <-> s <> EmptyString.
Proof. destruct s; simpl; split; congruence. Qed.

Lemma Getenv_empty (env : os.Env) (key : string) :
  os.Getenv env key = EmptyString <->
  env !! key = None \/ env !! key = Some EmptyString.
Proof.
  unfold os.Getenv. destruct (env !! key) as [v|]; simpl.
  - split; [intros ->; by right | intros [?|[= ->]]; done].
  - split; [by left | done].
Qed.

Lemma Getenv_lookup (env : os.Env) (key v : string) :
  env !! key = Some v -> os.Getenv env key = v.
Proof. unfold os.Getenv. by intros ->. Qed.

Lemma Getenv_delete_ne (env : os.Env) (key k : string) :
  k <> key -> os.Getenv (delete key env) k = os.Getenv env k.
Proof. intros Hne. unfold os.Getenv. by rewrite lookup_delete_ne. Qed.

Lemma Getenv_delete_eq (env : os.Env) (key : string) :
  os.Getenv (delete key env) key = EmptyString.
Proof. unfold os.Getenv. by rewrite lookup_delete_eq. Qed.

(** [LoadConfig] runs to completion from every world. *)
Lemma LoadConfig_run (intSize : Z) (env : os.Env) (w : World) :
  LoadConfig intSize env w =
  Ok tt {| AppConfig := Some (snapshot intSize env);
           stdout := stdout w ++ [notice_line] |}.
Proof. reflexivity. Qed.

(** ** The variables a snapshot depends on *)

Section Extensionality.

Variables (intSize : Z) (env1 env2 : os.Env) (key : string).
Hypothesis Hkey : os.Getenv env1 key = os.Getenv env2 key.

Lemma getEnvOrDefault_ext (d : string) :
  getEnvOrDefault env1 key d = getEnvOrDefault env2 key d.
Proof using Hkey. unfold getEnvOrDefault. by rewrite Hkey. Qed.

Lemma getEnvAsInt_ext (d : Z) :
  getEnvAsInt intSize env1 key d = getEnvAsInt intSize env2 key d.
Proof using Hkey. unfold getEnvAsInt. by rewrite Hkey. Qed.

Lemma getEnvAsInt64_ext (d : Z) :
  getEnvAsInt64 intSize env1 key d = getEnvAsInt64 intSize env2 key d.
Proof using Hkey. unfold getEnvAsInt64. by rewrite Hkey. Qed.

Lemma getEnvAsDuration_ext (d : string) :
  getEnvAsDuration env1 key d = getEnvAsDuration env2 key d.
Proof using Hkey. unfold getEnvAsDuration. by rewrite Hkey. Qed.

Lemma getEnvAsStringSlice_ext (d : list string) :
  getEnvAsStringSlice env1 key d = getEnvAsStringSlice env2 key d.
Proof using Hkey. unfold getEnvAsStringSlice. by rewrite Hkey. Qed.

End Extensionality.

(** The four stores through [AppConfig] leave every other field of the
    struct as it is. *)
Lemma stores_after_literal (c : Config) (a b d : list string)
    (m : MaxFileSizeValue) :
  set_MaxFileSize m
    (set_AllowedDocumentTypes d
       (set_AllowedVideoTypes b (set_AllowedImageTypes a c))) =
  {| ServerPort := ServerPort c; ServerHost := ServerHost c;
     ApiKeys := ApiKeys c; AllowedOrigins := AllowedOrigins c;
     RateLimitAttempts := RateLimitAttempts c;
     RateLimitDuration := RateLimitDuration c; MaxFileSize := m;
     SkippedApiEndpoints := SkippedApiEndpoints c;
     TrustedProxies := TrustedProxies c; CookieDomain := CookieDomain c;
     DatabaseRootURL := DatabaseRootURL c; DatabaseName := DatabaseName c;
     DatabaseURL := DatabaseURL c; RedisAddress := RedisAddress c;
     RedisPassword := RedisPassword c;
     AccessTokenSecret := AccessTokenSecret c;
     RefreshTokenSecret := RefreshTokenSecret c; SMTPHost := SMTPHost c;
     SMTPPort := SMTPPort c; SMTPEmail := SMTPEmail c;
     SMTPPassword := SMTPPassword c; AppName := AppName c;
     AppEnv := AppEnv c; FrontendURL := FrontendURL c;
     CloudName := CloudName c; CloudSecret := CloudSecret c;
     CloudApiKey := CloudApiKey c; CloudFolder := CloudFolder c;
     GoogleClientID := GoogleClientID c;
     GoogleClientSecret := GoogleClientSecret c;
     GoogleRedirectURL := GoogleRedirectURL c;
     FrontendRedirectURL := FrontendRedirectURL c;
     StripeWebhookSecret := StripeWebhookSecret c;
     StripeCancelUrlDev := StripeCancelUrlDev c;
     StripeSuccessUrlDev := StripeSuccessUrlDev c;
     StripeCancelUrlProd := StripeCancelUrlProd c;
     StripeSuccessUrlProd := StripeSuccessUrlProd c;
     StripeSecretKey := StripeSecretKey c;
     StripePublishableKey := StripePublishableKey c;
     AllowedImageTypes := a; AllowedVideoTypes := b;
     AllowedDocumentTypes := d |}.
Proof. by destruct c. Qed.

Ltac project_field :=
  unfold config_literal;
  cbn [
    ServerPort ServerHost ApiKeys AllowedOrigins RateLimitAttempts
    RateLimitDuration MaxFileSize SkippedApiEndpoints TrustedProxies
    CookieDomain DatabaseRootURL DatabaseName DatabaseURL RedisAddress
    RedisPassword AccessTokenSecret RefreshTokenSecret SMTPHost SMTPPort
    SMTPEmail SMTPPassword AppName AppEnv FrontendURL CloudName CloudSecret
    CloudApiKey CloudFolder GoogleClientID GoogleClientSecret
    GoogleRedirectURL FrontendRedirectURL StripeWebhookSecret
    StripeCancelUrlDev StripeSuccessUrlDev StripeCancelUrlProd
    StripeSuccessUrlProd StripeSecretKey StripePublishableKey
    AllowedImageTypes AllowedVideoTypes AllowedDocumentTypes ].



(** ** The library functions compute what their names say *)

Lemma SplitSeq_cons (s : string) (sep : ascii) :
  exists frag frags, strings.SplitSeq s sep = frag :: frags.
Proof.
  destruct s as [|c s']; simpl; [by eauto|].
  destruct (decide (c = sep)); [by eauto|].
  destruct (strings.SplitSeq s' sep); eauto.
Qed.

(** Joining the fragments with the separator gives the string back. *)
Lemma Join_SplitSeq (s : string) (sep : ascii) :
  strings.Join (strings.SplitSeq s sep) sep = s.
Proof.
  induction s as [|c s' IH]; [done|].
  cbn [strings.SplitSeq].
  destruct (SplitSeq_cons s' sep) as (frag & frags & E).
  rewrite E in IH |- *. destruct (decide (c = sep)) as [->|Hne].
  - change (strings.Join (EmptyString :: frag :: frags) sep)
      with (String sep (strings.Join (frag :: frags) sep)).
    by rewrite IH.
  - destruct frags as [|f r].
    + simpl in *. by rewrite IH.
    + change (String c (frag +:+ String sep (strings.Join (f :: r) sep))
              = String c s').
      by rewrite <- IH.
Qed.

(** No fragment contains the separator. *)
Lemma SplitSeq_free_of (s : string) (sep : ascii) :
  Forall (free_of sep) (strings.SplitSeq s sep).
Proof.
  induction s as [|c s' IH]; simpl.
  - by repeat constructor.
  - destruct (decide (c = sep)); [by constructor|].
    destruct (strings.SplitSeq s' sep) as [|frag frags].
    + by repeat constructor.
    + apply Forall_cons in IH as [? ?]. by repeat constructor.
Qed.

Lemma asciiSpace_below_RuneSelf (c : Z) :
  strings.asciiSpace c = true -> (utf8.RuneSelf <=? c) = false.
Proof.
  unfold strings.asciiSpace, utf8.RuneSelf. intros H.
  apply Z.leb_gt. repeat (apply orb_prop in H as [H|H]); lia.
Qed.

(** A string of ASCII white space is trimmed to the empty string. *)
Lemma TrimSpace_ascii_spaces (s : string) :
  all_bytes strings.asciiSpace s = true ->
  strings.TrimSpace s = EmptyString.
Proof.
  unfold strings.TrimSpace.
  induction s as [|c s' IH]; simpl; [done|].
  intros [Hc Hs]%andb_prop.
  rewrite (asciiSpace_below_RuneSelf _ Hc), Hc. by apply IH.
Qed.

Lemma sdrop_length (n : nat) (s : string) :
  String.length (sdrop n s) = (String.length s - n)%nat.
Proof.
  revert s. induction n as [|n IH]; intros [|c s]; simpl; auto with lia.
Qed.

Lemma leadingInt_loop_length (x : Z) (s : string) v rem err :
  time.leadingInt_loop x s = (v, rem, err) ->
  (String.length rem <= String.length s)%nat.
Proof.
  revert x. induction s as [|c s' IH]; simpl; intros x H.
  - by inversion H.
  - repeat case_match; try (inversion H; subst; simpl; lia).
    apply IH in H. lia.
Qed.

Lemma leadingFraction_loop_length (x : Z) scale o (s : string) v sc rem :
  time.leadingFraction_loop x scale o s = (v, sc, rem) ->
  (String.length rem <= String.length s)%nat.
Proof.
  revert x scale o. induction s as [|c s' IH]; simpl; intros x scale o H.
  - by inversion H.
  - repeat case_match; try (inversion H; subst; simpl; lia);
      apply IH in H; lia.
Qed.

(** The loop of [ParseDuration] ends within [length s] iterations. *)
Lemma parse_loop_fuel (orig : string) (fuel : nat) (s : string) (d : Z) :
  (String.length s <= fuel)%nat ->
  time.parse_loop orig fuel s d <> time.OutOfFuel.
Proof.
  revert s d. induction fuel as [|fuel IH]; intros s d Hlen.
  - destruct s; simpl in *; [done | lia].
  - destruct s as [|c0 t0]; [done|].
    cbn [time.parse_loop].
    destruct (negb _); [done|].
    destruct (time.leadingInt (String c0 t0)) as [[v s1] err] eqn:Ei.
    apply leadingInt_loop_length in Ei.
    destruct err; [done|].
    set (r := match s1 with EmptyString => _ | String _ _ => _ end).
    assert (Hr : (String.length (r.1.2) <= String.length s1)%nat).
    { subst r. destruct s1 as [|c1 t1]; [done|].
      destruct (byteZ c1 =? 46); [|done].
      destruct (time.leadingFraction t1) as [[f sc] s2] eqn:Ef.
      apply leadingFraction_loop_length in Ef. simpl. lia. }
    destruct r as [[[f scale] s2] post]. simpl in Hr.
    destruct (negb _ && negb post); [done|].
    destruct (time.unit_length s2 =? 0)%nat eqn:Eu; [done|].
    apply Nat.eqb_neq in Eu.
    destruct (time.unitMap _); [|done].
    repeat match goal with
           | |- (if ?b then _ else _) <> _ => destruct b; [done|]
           end.
    apply IH. rewrite sdrop_length. simpl in *. lia.
Qed.

(** On an error, [ParseDuration] returns the zero duration. *)
Lemma ParseDuration_error_zero (s : string) d e :
  time.ParseDuration s = (d, Some e) -> d = 0.
Proof.
  unfold time.ParseDuration. intros H.
  repeat case_match; by inversion H.
Qed.

(** *** [TrimSpace] on ASCII strings *)

Lemma slice_0_snoc (s : string) (n : nat) (c : ascii) :
  String.get n s = Some c ->
  slice s 0 (S n) = slice s 0 n +:+ String c EmptyString.
Proof.
  unfold slice. rewrite !Nat.sub_0_r. revert n.
  induction s as [|a s' IH]; intros n H; [by destruct n|].
  destruct n as [|n'].
  - simpl in *. inversion H. subst. by destruct s'.
  - simpl in H. simpl.
    change (String a (String.substring 0 (S n') s')
            = String a (String.substring 0 n' s' +:+ String c EmptyString)).
    f_equal. by apply IH.
Qed.

Lemma slice_0_length (s : string) : slice s 0 (String.length s) = s.
Proof.
  unfold slice. rewrite Nat.sub_0_r.
  induction s as [|a s' IH]; [done|]. simpl. by rewrite IH.
Qed.

Lemma all_bytes_get (P : Z -> bool) (s : string) (n : nat) (c : ascii) :
  all_bytes P s = true -> String.get n s = Some c -> P (byteZ c) = true.
Proof.
  revert n. induction s as [|a s' IH]; intros n Hall H; [by destruct n|].
  simpl in Hall. apply andb_prop in Hall as [Ha Hs].
  destruct n as [|n']; simpl in H.
  - by inversion H; subst.
  - by apply (IH n').
Qed.

Lemma get_in_range (s : string) (n : nat) :
  (n < String.length s)%nat -> exists c, String.get n s = Some c.
Proof.
  revert n. induction s as [|a s' IH]; intros n H; simpl in H; [lia|].
  destruct n as [|n']; simpl; [by eauto|]. apply IH. lia.
Qed.

Lemma drop_trailing_spaces_snoc (u : string) (c : ascii) :
  drop_trailing_spaces (u +:+ String c EmptyString) =
  if strings.asciiSpace (byteZ c) then drop_trailing_spaces u
  else u +:+ String c EmptyString.
Proof.
  induction u as [|a u' IH]; simpl.
  - by destruct (strings.asciiSpace (byteZ c)).
  - rewrite IH. destruct (strings.asciiSpace (byteZ c)); [done|].
    by destruct u'.
Qed.

Lemma trimSpace_stop_ascii (s : string) (stop : nat) :
  all_bytes is_ascii s = true ->
  (stop <= String.length s)%nat ->
  strings.trimSpace_stop s stop = drop_trailing_spaces (slice s 0 stop).
Proof.
  intros Hascii. induction stop as [|stop IH]; intros Hlen.
  - by destruct s.
  - destruct (get_in_range s stop) as [c Hc]; [lia|].
    cbn [strings.trimSpace_stop]. unfold sbyte. rewrite Hc.
    pose proof (all_bytes_get _ _ _ _ Hascii Hc) as Hlt.
    unfold is_ascii in Hlt. apply Z.ltb_lt in Hlt.
    destruct (Z.leb_spec utf8.RuneSelf (byteZ c)); [lia|].
    rewrite (slice_0_snoc _ _ _ Hc), drop_trailing_spaces_snoc.
    destruct (strings.asciiSpace (byteZ c)); [|done].
    apply IH. lia.
Qed.

(** On a string of ASCII bytes, [TrimSpace] removes the leading and the
    trailing ASCII white space and nothing else. *)
Lemma TrimSpace_ascii (s : string) :
  all_bytes is_ascii s = true ->
  strings.TrimSpace s = spec_trim_ascii s.
Proof.
  unfold strings.TrimSpace, spec_trim_ascii.
  induction s as [|c t IH]; intros Hascii; [done|].
  cbn [strings.trimSpace_start drop_leading_spaces].
  pose proof Hascii as [Hc Ht]%andb_prop.
  unfold is_ascii in Hc. apply Z.ltb_lt in Hc.
  destruct (Z.leb_spec utf8.RuneSelf (byteZ c)); [lia|].
  destruct (strings.asciiSpace (byteZ c)); [by apply IH|].
  rewrite trimSpace_stop_ascii by done.
  by rewrite slice_0_length.
Qed.

(** The embeddings agree with the Go functions on the known values. *)
Lemma TrimSpace_known_values :
  forallb (fun p => String.eqb (strings.TrimSpace p.1) p.2)
    TrimSpace_vectors = true.
Proof. by vm_compute. Qed.

Lemma ParseDuration_known_values :
  forallb (fun p => match time.ParseDuration p.1 with
                    | (d, None) => d =? p.2
                    | (_, Some _) => false
                    end) ParseDuration_vectors = true /\
  forallb (fun s => match time.ParseDuration s with
                    | (d, Some _) => d =? 0
                    | (_, None) => false
                    end) ParseDuration_rejected = true.
Proof. by vm_compute. Qed.

Lemma ParseInt_known_values :
  forallb (fun p => same_result (strconv.ParseInt 64 p.1 64) p.2)
    ParseInt64_vectors = true /\
  forallb (fun p => same_result (strconv.Atoi 64 p.1) p.2)
    ParseInt64_vectors = true /\
  forallb (fun p => same_result (strconv.ParseInt 64 p.1 32) p.2)
    ParseInt32_vectors = true /\
  forallb (fun p => same_result (strconv.Atoi 32 p.1) p.2)
    ParseInt32_vectors = true.
Proof. by vm_compute. Qed.

(** ** Initialization *)




(** ** Derived accessors *)

(** C8. Before initialization ([AppConfig] is nil) each of the three
    derived accessors panics with a nil dereference; once a snapshot is
    installed each returns a value computed from that snapshot alone and
    leaves the world as it is, the server address being host, [":"],
    port. *)
Theorem derived_accessors (w : World) :
  (AppConfig w = None ->
     GetServerAddress w = Panicked NilDereference w /\
     IsProduction w = Panicked NilDereference w /\
     IsDevelopment w = Panicked NilDereference w) /\
  (forall c : Config, AppConfig w = Some c ->
     GetServerAddress w = Ok (ServerHost c +:+ ":" +:+ ServerPort c) w /\
     IsProduction w = Ok (bool_decide (AppEnv c = "production")) w /\
     IsDevelopment w = Ok (bool_decide (AppEnv c = "development")) w).
Proof.
  unfold GetServerAddress, IsProduction, IsDevelopment, mbind, M_bind,
    load_AppConfig. split.
  - by intros ->.
  - by intros c ->.
Qed.

(** C1, as amended. With a snapshot installed, the is-production accessor
    returns true if and only if the environment mode of the snapshot is
    exactly ["production"], and the is-development accessor returns true
    if and only if it is exactly ["development"]; the mode installed by
    [LoadConfig] is the value of [APP_ENV], or ["development"] when the
    variable is unset or empty. *)
Theorem environment_mode_accessors (w : World) (c : Config)
    (Hc : AppConfig w = Some c) :
  (exists b, IsProduction w = Ok b w /\
     (b = true <-> AppEnv c = "production")) /\
  (exists b, IsDevelopment w = Ok b w /\
     (b = true <-> AppEnv c = "development")) /\
  (forall (intSize : Z) (env : os.Env) (w0 : World),
     exists c', installed intSize env w0 = Some c' /\
       AppEnv c' = match env !! "APP_ENV" with
                   | None | Some EmptyString => "development"
                   | Some v => v
                   end).
Proof.
  unfold IsProduction, IsDevelopment, mbind, M_bind, load_AppConfig.
  rewrite Hc. repeat split.
  - eexists. split; [done|]. apply bool_decide_eq_true.
  - eexists. split; [done|]. apply bool_decide_eq_true.
  - intros intSize env w0. exists (snapshot intSize env).
    unfold installed. rewrite LoadConfig_run. split; [done|].
    change (AppEnv (snapshot intSize env))
      with (getEnvOrDefault env "APP_ENV" "development").
    unfold getEnvOrDefault, os.Getenv.
    by destruct (env !! "APP_ENV") as [[|? ?]|].
Qed.

(** C1, as stated, fails: with [APP_ENV=staging] the is-production
    accessor returns false and the is-development accessor returns false
    as well, so it is not true of every mode other than production. *)
Lemma is_development_not_every_other_mode :
  value_of ((LoadConfig 64 staging_env ;; IsProduction) initial_world)
    = Some false /\
  value_of ((LoadConfig 64 staging_env ;; IsDevelopment) initial_world)
    = Some false /\
  ~ (forall env : os.Env,
       value_of ((LoadConfig 64 env ;; IsProduction) initial_world)
         = Some false ->
       value_of ((LoadConfig 64 env ;; IsDevelopment) initial_world)
         = Some true).
Proof.
  split; [by vm_compute|]. split; [by vm_compute|].
  intros H. specialize (H staging_env).
  vm_compute in H. by specialize (H eq_refl).
Qed.

(** ** String sequences *)

Lemma byteZ_range (c : ascii) : 0 <= byteZ c < 256.
Proof.
  unfold byteZ. pose proof (N_ascii_bounded c) as H. lia.
Qed.

Lemma DecodeRuneInString_ascii (c : ascii) (t : string) :
  byteZ c < 128 ->
  utf8.DecodeRuneInString (String c t) = (byteZ c, 1%nat).
Proof.
  intros H. unfold utf8.DecodeRuneInString.
  by destruct (Z.ltb_spec (byteZ c) 128); [|lia].
Qed.

Lemma IsSpace_ascii (c : Z) :
  0 <= c < 128 -> unicode.IsSpace c = strings.asciiSpace c.
Proof.
  intros H. unfold unicode.IsSpace, strings.asciiSpace.
  destruct (Z.leb_spec c 255); [|lia].
  destruct (Z.eqb_spec c 133); [lia|].
  destruct (Z.eqb_spec c 160); [lia|].
  by rewrite !orb_false_r.
Qed.

Lemma after_rune_length (size : nat) (t0 : string) :
  (String.length (strings.after_rune size t0) <= String.length t0)%nat.
Proof.
  unfold strings.after_rune.
  repeat case_match; subst; simpl; lia.
Qed.

Lemma TrimLeftFunc_whitespace (n : nat) (s : string) :
  (String.length s <= n)%nat ->
  whitespace_only s ->
  strings.TrimLeftFunc unicode.IsSpace s = EmptyString.
Proof.
  unfold whitespace_only. revert s.
  induction n as [|n IH]; intros [|c0 t0] Hlen Hs; try done.
  - simpl in Hlen. lia.
  - cbn [strings.TrimLeftFunc strings.runes] in *.
    destruct (utf8.DecodeRuneInString (String c0 t0)) as [r size].
    cbn [forallb] in Hs. apply andb_prop in Hs as [-> Hs].
    apply IH; [|done].
    pose proof (after_rune_length size t0). simpl in Hlen. lia.
Qed.

(** A white-space-only string is trimmed to the empty string. *)
Lemma TrimSpace_whitespace_only (s : string) :
  whitespace_only s -> strings.TrimSpace s = EmptyString.
Proof.
  unfold strings.TrimSpace.
  induction s as [|c0 t0 IH]; [done|]. intros Hs.
  cbn [strings.trimSpace_start].
  destruct (Z.leb_spec utf8.RuneSelf (byteZ c0)) as [Hc|Hc].
  - unfold strings.TrimFunc.
    by rewrite (TrimLeftFunc_whitespace _ _ (Nat.le_refl _) Hs).
  - unfold utf8.RuneSelf in Hc. unfold whitespace_only in Hs.
    cbn [strings.runes] in Hs.
    rewrite DecodeRuneInString_ascii in Hs by done.
    cbn [forallb strings.after_rune] in Hs.
    apply andb_prop in Hs as [Hsp Hs].
    pose proof (byteZ_range c0).
    rewrite IsSpace_ascii in Hsp by lia. rewrite Hsp. by apply IH.
Qed.

(** The loop of [getEnvAsStringSlice] appends, in order, the non-empty
    trimmed items. *)
Lemma fold_collect_item (items result : list string) :
  fold_left collect_item items result =
  result ++ filter (fun x : string => x <> EmptyString)
                   (strings.TrimSpace <$> items).
Proof.
  revert result. induction items as [|item items IH]; intros result.
  - simpl. by rewrite app_nil_r.
  - cbn [fold_left fmap list_fmap]. rewrite IH. unfold collect_item.
    destruct (strings.TrimSpace item) as [|c t] eqn:E.
    + simpl. by rewrite filter_cons_False by naive_solver.
    + simpl. rewrite filter_cons_True by done. by rewrite <- app_assoc.
Qed.

Lemma getEnvAsStringSlice_set (env : os.Env) (key v : string)
    (defaultValue : list string) :
  env !! key = Some v -> v <> EmptyString ->
  getEnvAsStringSlice env key defaultValue = spec_split_trim_drop v.
Proof.
  intros Hv Hne. unfold getEnvAsStringSlice.
  rewrite (Getenv_lookup _ _ _ Hv).
  apply is_empty_false in Hne. rewrite Hne.
  by rewrite fold_collect_item.
Qed.

Lemma getEnvAsStringSlice_unset (env : os.Env) (key : string)
    (defaultValue : list string) :
  env !! key = None \/ env !! key = Some EmptyString ->
  getEnvAsStringSlice env key defaultValue = defaultValue.
Proof.
  intros H%Getenv_empty. unfold getEnvAsStringSlice. by rewrite H.
Qed.

(** C2. For each of the six string-sequence attributes (and for every
    use of the primitive): when the variable is set to a non-empty
    string the sequence is that string split on commas, each element
    trimmed of white space, the empty elements dropped; when the variable
    is unset or empty the sequence is the default sequence as it is.
    ["a, b ,,c"] yields ["a"; "b"; "c"]. *)
Theorem string_sequence_attribute (env : os.Env) (key : string)
    (defaultValue : list string) :
  (forall v, env !! key = Some v -> v <> EmptyString ->
     getEnvAsStringSlice env key defaultValue = spec_split_trim_drop v) /\
  (unset_or_empty env key ->
     getEnvAsStringSlice env key defaultValue = defaultValue) /\
  spec_split_trim_drop "a, b ,,c" = ["a"; "b"; "c"] /\
  (forall (intSize : Z) (w : World),
     exists c, installed intSize env w = Some c /\
       TrustedProxies c =
         getEnvAsStringSlice env "TRUSTED_PROXIES" ["localhost"] /\
       SkippedApiEndpoints c =
         getEnvAsStringSlice env "SKIPPED_API_ENDPOINTS" ["/health"] /\
       AllowedOrigins c =
         getEnvAsStringSlice env "ALLOWED_ORIGINS" ["http://localhost:3000"] /\
       AllowedImageTypes c =
         getEnvAsStringSlice env "ALLOWED_IMAGE_TYPES"
           ["image/jpeg"; "image/png"] /\
       AllowedVideoTypes c =
         getEnvAsStringSlice env "ALLOWED_VIDEO_TYPES" ["video/mp4"] /\
       AllowedDocumentTypes c =
         getEnvAsStringSlice env "ALLOWED_DOCUMENT_TYPES" ["application/pdf"]).
Proof.
  split; [|split; [|split]].
  - intros v. apply getEnvAsStringSlice_set.
  - apply getEnvAsStringSlice_unset.
  - by vm_compute.
  - intros intSize w. exists (snapshot intSize env).
    unfold installed. by rewrite LoadConfig_run.
Qed.

(** C9. When a string-sequence variable is set to a non-empty string all
    of whose comma-separated parts are empty or white space only, the
    primitive returns the empty sequence, whatever the default is, and so
    the attribute installed is empty and not the default: the default is
    returned as a whole only for the empty value. *)
Theorem whitespace_only_parts_give_empty (env : os.Env) (key v : string)
    (defaultValue : list string)
    (Hset : env !! key = Some v)
    (Hne : v <> EmptyString)
    (Hparts : Forall whitespace_only (strings.SplitSeq v ",")) :
  getEnvAsStringSlice env key defaultValue = [] /\
  forall (intSize : Z) (w : World),
    exists c, installed intSize env w = Some c /\
      (key = "TRUSTED_PROXIES" -> TrustedProxies c = []) /\
      (key = "SKIPPED_API_ENDPOINTS" -> SkippedApiEndpoints c = []) /\
      (key = "ALLOWED_ORIGINS" -> AllowedOrigins c = []) /\
      (key = "ALLOWED_IMAGE_TYPES" -> AllowedImageTypes c = []) /\
      (key = "ALLOWED_VIDEO_TYPES" -> AllowedVideoTypes c = []) /\
      (key = "ALLOWED_DOCUMENT_TYPES" -> AllowedDocumentTypes c = []).
Proof.
  assert (Hempty : forall d, getEnvAsStringSlice env key d = []).
  { intros d. rewrite (getEnvAsStringSlice_set _ _ _ _ Hset Hne).
    unfold spec_split_trim_drop.
    induction Hparts as [|part parts Hpart _ IH]; [done|].
    cbn [fmap list_fmap]. rewrite filter_cons_False; [done|].
    rewrite (TrimSpace_whitespace_only _ Hpart). naive_solver. }
  split; [apply Hempty|].
  intros intSize w. exists (snapshot intSize env).
  unfold installed. rewrite LoadConfig_run.
  split; [done|]. repeat split; intros ->; apply Hempty.
Qed.

(** ** Durations *)

Lemma getEnvAsDuration_parsed (env : os.Env) (key defaultValue v : string)
    (d : time.Duration) :
  env !! key = Some v -> v <> EmptyString ->
  time.ParseDuration v = (d, None) ->
  getEnvAsDuration env key defaultValue = d.
Proof.
  intros Hv Hne Hd. unfold getEnvAsDuration.
  rewrite (Getenv_lookup _ _ _ Hv).
  apply is_empty_false in Hne. by rewrite Hne, Hd.
Qed.

Lemma getEnvAsDuration_unset (env : os.Env) (key defaultValue : string) :
  env !! key = None \/ env !! key = Some EmptyString ->
  getEnvAsDuration env key defaultValue = (time.ParseDuration defaultValue).1.
Proof.
  intros H%Getenv_empty. unfold getEnvAsDuration. rewrite H. simpl.
  by destruct (time.ParseDuration defaultValue) as [d [e|]].
Qed.

Lemma getEnvAsDuration_malformed (env : os.Env) (key defaultValue v : string)
    (e : time.error) :
  env !! key = Some v -> v <> EmptyString ->
  (time.ParseDuration v).2 = Some e ->
  getEnvAsDuration env key defaultValue = (time.ParseDuration defaultValue).1.
Proof.
  intros Hv Hne He. unfold getEnvAsDuration.
  rewrite (Getenv_lookup _ _ _ Hv).
  apply is_empty_false in Hne. rewrite Hne.
  destruct (time.ParseDuration v) as [d o]. simpl in He. subst o.
  by destruct (time.ParseDuration defaultValue).
Qed.

(** C3. The duration primitive returns the parsed duration of the value
    of the variable when it is set and parses; it parses the default
    string when the variable is unset or empty, and also when the value
    is malformed; the parse of a default that is itself malformed is the
    zero duration.  The primitive is a total function (the loop of the
    parser never runs out of its fuel), so it never raises.  For
    [RATE_LIMIT_DURATION], ["2s"] is exactly two seconds, the default
    ["60s"] is sixty seconds and ["notaduration"] does not parse. *)
Theorem duration_primitive (env : os.Env) (key defaultValue : string) :
  (forall v d, env !! key = Some v -> v <> EmptyString ->
     time.ParseDuration v = (d, None) ->
     getEnvAsDuration env key defaultValue = d) /\
  (unset_or_empty env key ->
     getEnvAsDuration env key defaultValue
       = (time.ParseDuration defaultValue).1) /\
  (forall v e, env !! key = Some v -> v <> EmptyString ->
     (time.ParseDuration v).2 = Some e ->
     getEnvAsDuration env key defaultValue
       = (time.ParseDuration defaultValue).1) /\
  (forall e, (time.ParseDuration defaultValue).2 = Some e ->
     (time.ParseDuration defaultValue).1 = 0) /\
  (forall orig s d,
     time.parse_loop orig (String.length s) s d <> time.OutOfFuel) /\
  time.ParseDuration "2s" = (2 * time.Second, None) /\
  time.ParseDuration "60s" = (60 * time.Second, None) /\
  (exists e, time.ParseDuration "notaduration" = (0, Some e)) /\
  (forall (intSize : Z) (w : World),
     exists c, installed intSize env w = Some c /\
       RateLimitDuration c =
         getEnvAsDuration env "RATE_LIMIT_DURATION" "60s").
Proof.
  repeat apply conj.
  - intros v d. apply getEnvAsDuration_parsed.
  - apply getEnvAsDuration_unset.
  - intros v e. apply getEnvAsDuration_malformed.
  - intros e He. destruct (time.ParseDuration defaultValue) as [d o] eqn:E.
    simpl in *. subst o. by apply ParseDuration_error_zero in E.
  - intros orig s d. by apply parse_loop_fuel.
  - by vm_compute.
  - by vm_compute.
  - eexists. by vm_compute.
  - intros intSize w. exists (snapshot intSize env).
    unfold installed. by rewrite LoadConfig_run.
Qed.

(** ** Integers *)

Lemma digit_value_range (c : ascii) (d : Z) :
  digit_value c = Some d -> 0 <= d <= 9 /\ d = byteZ c - 48.
Proof.
  unfold digit_value. intros H.
  destruct (Z.leb_spec 48 (byteZ c)), (Z.leb_spec (byteZ c) 57);
    simpl in H; inversion H; lia.
Qed.

Lemma digits_value_ge (s : string) (acc v : Z) :
  0 <= acc -> digits_value acc s = Some v -> acc <= v.
Proof.
  revert acc. induction s as [|c s' IH]; simpl; intros acc Hacc H.
  - inversion H. lia.
  - destruct (digit_value c) as [d|] eqn:Ed; [|done].
    apply digit_value_range in Ed as [? _].
    apply IH in H; lia.
Qed.

Lemma uint64_small (z : Z) : 0 <= z < 2 ^ 64 -> uint64 z = z.
Proof. intros H. unfold uint64, to_uint. by apply Z.mod_small. Qed.

Lemma int64_small (z : Z) : - 2 ^ 63 <= z < 2 ^ 63 -> int64 z = z.
Proof.
  intros H. unfold int64, to_int.
  change (64 - 1) with 63. rewrite Z.mod_small; lia.
Qed.

Lemma to_int_small (w z : Z) :
  1 <= w -> - 2 ^ (w - 1) <= z < 2 ^ (w - 1) -> to_int w z = z.
Proof.
  intros Hw H. unfold to_int.
  assert (2 ^ w = 2 * 2 ^ (w - 1)) as ->.
  { rewrite <- Z.pow_succ_r by lia. f_equal. lia. }
  rewrite Z.mod_small; lia.
Qed.

(** What the digit loop of [ParseUint] computes. *)
Lemma parseUint_loop_spec (maxVal : Z) (s : string) (n : Z) :
  0 <= n <= maxVal -> maxVal < 2 ^ 64 ->
  match digits_value n s with
  | Some v =>
      if v <=? maxVal then
        strconv.parseUint_loop (strconv.maxUint64 / 10 + 1) maxVal n s
          = (v, None)
      else
        strconv.parseUint_loop (strconv.maxUint64 / 10 + 1) maxVal n s
          = (maxVal, Some strconv.ErrRange)
  | None =>
      strconv.parseUint_loop (strconv.maxUint64 / 10 + 1) maxVal n s
        = (0, Some strconv.ErrSyntax) \/
      strconv.parseUint_loop (strconv.maxUint64 / 10 + 1) maxVal n s
        = (maxVal, Some strconv.ErrRange)
  end.
Proof.
  change (strconv.maxUint64 / 10 + 1) with 1844674407370955162.
  change (2 ^ 64) with 18446744073709551616.
  revert n. induction s as [|c s' IH]; intros n Hn Hmax.
  - simpl. destruct (Z.leb_spec n maxVal); [done | lia].
  - cbn [digits_value strconv.parseUint_loop].
    destruct (digit_value c) as [d|] eqn:Ed.
    + pose proof Ed as [Hd ->]%digit_value_range.
      unfold digit_value in Ed.
      destruct ((48 <=? byteZ c) && (byteZ c <=? 57)); [|done]. cbn [negb].
      assert (Hover : forall v,
        18446744073709551616 <= n * 10 + (byteZ c - 48) ->
        digits_value (n * 10 + (byteZ c - 48)) s' = Some v ->
        (v <=? maxVal) = false).
      { intros v Hbig Hv. apply digits_value_ge in Hv; lia. }
      destruct (Z.leb_spec 1844674407370955162 n) as [Hcut|Hcut].
      { destruct (digits_value _ s') as [v|] eqn:Ev; [|by right].
        rewrite (Hover v); [done | lia | done]. }
      rewrite (uint64_small (n * 10)) by lia.
      destruct (Z.lt_ge_cases (n * 10 + (byteZ c - 48)) 18446744073709551616)
        as [Hfit|Hwrap].
      * rewrite uint64_small by lia.
        destruct (Z.ltb_spec (n * 10 + (byteZ c - 48)) (n * 10)); [lia|].
        destruct (Z.ltb_spec maxVal (n * 10 + (byteZ c - 48))) as [Hgt|Hle].
        { simpl. destruct (digits_value _ s') as [v|] eqn:Ev; [|by right].
          apply digits_value_ge in Ev; [|lia].
          destruct (Z.leb_spec v maxVal); [lia | done]. }
        simpl. apply IH; lia.
      * assert (uint64 (n * 10 + (byteZ c - 48))
                = n * 10 + (byteZ c - 48) - 18446744073709551616) as ->.
        { unfold uint64, to_uint.
          change (2 ^ 64) with 18446744073709551616.
          symmetry. apply Z.mod_unique with 1; lia. }
        destruct (Z.ltb_spec (n * 10 + (byteZ c - 48) - 18446744073709551616)
                    (n * 10)); [|lia].
        simpl. destruct (digits_value _ s') as [v|] eqn:Ev; [|by right].
        rewrite (Hover v); [done | lia | done].
    + unfold digit_value in Ed.
      destruct ((48 <=? byteZ c) && (byteZ c <=? 57)); [done|]. by left.
Qed.

Section EffectiveWidth.

Variables (intSize bitSize eff : Z).
Hypothesis Hbits : 0 <= bitSize <= 64.
Hypothesis Heff : eff = if bitSize =? 0 then intSize else bitSize.
Hypothesis Hwidth : 2 <= eff <= 64.

Lemma maxVal_eq :
  uint64 (uint64 (Z.shiftl 1 eff) - 1) = 2 ^ eff - 1.
Proof.
  clear Hbits Heff. rewrite Z.shiftl_1_l.
  destruct (Z.eq_dec eff 64) as [->|Hne]; [done|].
  assert (0 < 2 ^ eff < 2 ^ 64).
  { split; [lia|]. apply Z.pow_lt_mono_r; lia. }
  rewrite (uint64_small (2 ^ eff)) by lia.
  apply uint64_small. lia.
Qed.

Lemma cutoff_eq :
  uint64 (Z.shiftl 1 (eff - 1)) = 2 ^ (eff - 1).
Proof.
  rewrite Z.shiftl_1_l. apply uint64_small.
  split; [lia|]. apply Z.pow_lt_mono_r; lia.
Qed.

Lemma pow_eff : 2 ^ eff = 2 * 2 ^ (eff - 1) /\ 0 < 2 ^ (eff - 1) <= 2 ^ 63.
Proof.
  split.
  - rewrite <- Z.pow_succ_r by lia. f_equal. lia.
  - split; [lia|]. apply Z.pow_le_mono_r; lia.
Qed.

(** [ParseUint] on a non-empty string. *)
Lemma ParseUint_spec (s : string) :
  s <> EmptyString ->
  match digits_value 0 s with
  | Some v =>
      if v <=? 2 ^ eff - 1 then
        strconv.ParseUint intSize s bitSize = (v, None)
      else
        strconv.ParseUint intSize s bitSize
          = (2 ^ eff - 1, Some strconv.ErrRange)
  | None =>
      strconv.ParseUint intSize s bitSize = (0, Some strconv.ErrSyntax) \/
      strconv.ParseUint intSize s bitSize
        = (2 ^ eff - 1, Some strconv.ErrRange)
  end.
Proof.
  intros Hs%is_empty_false. unfold strconv.ParseUint. rewrite Hs.
  destruct (Z.ltb_spec bitSize 0); [lia|].
  destruct (Z.ltb_spec 64 bitSize); [lia|]. cbn [orb].
  rewrite <- Heff, maxVal_eq.
  apply parseUint_loop_spec; [|].
  - pose proof pow_eff. lia.
  - destruct pow_eff as [-> ?]. change (2 ^ 64) with (2 * 2 ^ 63). lia.
Qed.

Lemma int64_neg_int64 (v : Z) :
  0 <= v <= 2 ^ 63 -> int64 (- int64 v) = - v.
Proof.
  intros H. destruct (Z.eq_dec v (2 ^ 63)) as [->|Hne]; [done|].
  rewrite (int64_small v) by lia. apply int64_small. lia.
Qed.

Lemma finish_ParseInt_spec (neg : bool) (s : string) :
  s <> EmptyString ->
  match digits_value 0 s with
  | Some v =>
      let n := if neg then - v else v in
      if (- 2 ^ (eff - 1) <=? n) && (n <? 2 ^ (eff - 1)) then
        finish_ParseInt eff neg (strconv.ParseUint intSize s bitSize) = (n, None)
      else
        exists r e,
          finish_ParseInt eff neg (strconv.ParseUint intSize s bitSize)
            = (r, Some e)
  | None =>
      exists r e,
        finish_ParseInt eff neg (strconv.ParseUint intSize s bitSize)
          = (r, Some e)
  end.
Proof.
  intros Hs. pose proof (ParseUint_spec s Hs) as HU.
  destruct pow_eff as [Hpow Hhalf].
  assert (Hrange : forall neg',
    exists r e, finish_ParseInt eff neg' (2 ^ eff - 1, Some strconv.ErrRange)
                = (r, Some e)).
  { intros neg'. unfold finish_ParseInt. rewrite cutoff_eq.
    assert (2 ^ (eff - 1) < 2 ^ eff - 1).
    { assert (2 ^ 1 <= 2 ^ (eff - 1)) by (apply Z.pow_le_mono_r; lia).
      lia. }
    destruct neg'; cbn [negb andb].
    - destruct (Z.ltb_spec (2 ^ (eff - 1)) (2 ^ eff - 1)); [eauto | lia].
    - destruct (Z.leb_spec (2 ^ (eff - 1)) (2 ^ eff - 1)); [eauto | lia]. }
  destruct (digits_value 0 s) as [v|] eqn:Ev.
  - pose proof (digits_value_ge _ _ _ (Z.le_refl 0) Ev) as Hv.
    cbn zeta.
    destruct (Z.leb_spec v (2 ^ eff - 1)) as [Hle|Hgt].
    + rewrite HU. unfold finish_ParseInt. rewrite cutoff_eq.
      destruct neg; cbn [negb andb].
      * destruct (Z.ltb_spec (2 ^ (eff - 1)) v) as [Hc|Hc].
        { destruct (Z.leb_spec (- 2 ^ (eff - 1)) (- v)); [lia|].
          cbn [andb]. eauto. }
        destruct (Z.leb_spec (- 2 ^ (eff - 1)) (- v)); [|lia].
        destruct (Z.ltb_spec (- v) (2 ^ (eff - 1))); [|lia].
        cbn [andb]. f_equal. apply int64_neg_int64. lia.
      * destruct (Z.leb_spec (2 ^ (eff - 1)) v) as [Hc|Hc].
        { destruct (Z.ltb_spec v (2 ^ (eff - 1))); [lia|].
          rewrite andb_false_r. eauto. }
        destruct (Z.leb_spec (- 2 ^ (eff - 1)) v); [|lia].
        destruct (Z.ltb_spec v (2 ^ (eff - 1))); [|lia].
        cbn [andb]. f_equal. apply int64_small. lia.
    + rewrite HU.
      assert (((- 2 ^ (eff - 1) <=? (if neg then - v else v))
               && ((if neg then - v else v) <? 2 ^ (eff - 1))) = false) as ->.
      { destruct neg.
        - destruct (Z.leb_spec (- 2 ^ (eff - 1)) (- v)); [lia|done].
        - destruct (Z.ltb_spec v (2 ^ (eff - 1))); [lia|].
          by rewrite andb_false_r. }
      apply Hrange.
  - destruct HU as [-> | ->]; [|apply Hrange].
    unfold finish_ParseInt. eauto.
Qed.

(** [ParseInt] accepts exactly the base-10 integers that fit [eff] bits,
    and returns their value. *)
Lemma ParseInt_spec (s : string) :
  match spec_parse_int eff s with
  | Some n => strconv.ParseInt intSize s bitSize = (n, None)
  | None => exists r e, strconv.ParseInt intSize s bitSize = (r, Some e)
  end.
Proof.
  destruct s as [|c t]; [by simpl; eauto|].
  assert (Hfin :
    strconv.ParseInt intSize (String c t) bitSize
    = finish_ParseInt eff (byteZ c =? 45)
        (strconv.ParseUint intSize
           (if (byteZ c =? 43) || (byteZ c =? 45) then t else String c t)
           bitSize)).
  { unfold strconv.ParseInt, finish_ParseInt.
    rewrite <- Heff. reflexivity. }
  rewrite Hfin. clear Hfin.
  unfold spec_parse_int, spec_decimal_integer.
  destruct (Z.eqb_spec (byteZ c) 43) as [Hp|Hp].
  - destruct (Z.eqb_spec (byteZ c) 45); [lia|]. cbn [orb].
    destruct t as [|c1 t1]; [by cbn; eauto|]. cbn [is_empty].
    pose proof (finish_ParseInt_spec false (String c1 t1)) as H.
    destruct (digits_value 0 (String c1 t1)); [|by apply H].
    cbn zeta in H. by destruct (_ && _); apply H.
  - destruct (Z.eqb_spec (byteZ c) 45) as [Hm|Hm]; cbn [orb].
    + destruct t as [|c1 t1]; [by cbn; eauto|]. cbn [is_empty].
      pose proof (finish_ParseInt_spec true (String c1 t1)) as H.
      destruct (digits_value 0 (String c1 t1)); cbn [fmap option_fmap option_map];
        [|by apply H].
      cbn zeta in H. by destruct (_ && _); apply H.
    + pose proof (finish_ParseInt_spec false (String c t)) as H.
      destruct (digits_value 0 (String c t)); [|by apply H].
      cbn zeta in H. by destruct (_ && _); apply H.
Qed.

End EffectiveWidth.

Lemma digits_value_lt (s : string) (n v k : Z) :
  0 <= k -> 0 <= n < 10 ^ k ->
  digits_value n s = Some v ->
  0 <= v < 10 ^ (k + Z.of_nat (String.length s)).
Proof.
  revert n k. induction s as [|c s' IH]; intros n k Hk Hn H.
  - simpl in *. inversion H. subst. by rewrite Z.add_0_r.
  - cbn [digits_value] in H.
    destruct (digit_value c) as [d|] eqn:Ed; [|done].
    apply digit_value_range in Ed as [Hd _].
    apply (IH _ (k + 1)) in H; [|lia|].
    + replace (k + Z.of_nat (String.length (String c s')))
        with (k + 1 + Z.of_nat (String.length s')); [done|].
      cbn [String.length]. lia.
    + rewrite Z.pow_add_r by lia. lia.
Qed.

Lemma uint8_digit (c : ascii) :
  match digit_value c with
  | Some d => uint8 (byteZ c - 48) = d /\ 0 <= d <= 9
  | None => 9 < uint8 (byteZ c - 48)
  end.
Proof.
  pose proof (byteZ_range c) as Hc. unfold digit_value, uint8, to_uint.
  change (2 ^ 8) with 256.
  destruct (Z.leb_spec 48 (byteZ c)) as [H48|H48].
  - rewrite Z.mod_small by lia.
    destruct (Z.leb_spec (byteZ c) 57); simpl; lia.
  - assert ((byteZ c - 48) mod 256 = byteZ c - 48 + 256) as ->.
    { symmetry. apply Z.mod_unique with (-1); lia. }
    simpl. lia.
Qed.

Section FastPath.

Variables (intSize m : Z).
Hypothesis Hsize : 1 <= intSize.
Hypothesis Hm : 0 <= m /\ 10 ^ m <= 2 ^ (intSize - 1).

(** Within [m] digits the fast path of [Atoi] cannot overflow and
    computes the value of the digits. *)
Lemma atoi_fast_loop_spec (s : string) (n k : Z) :
  0 <= k -> 0 <= n < 10 ^ k ->
  k + Z.of_nat (String.length s) <= m ->
  strconv.atoi_fast_loop intSize n s = digits_value n s.
Proof.
  revert n k. induction s as [|c s' IH]; intros n k Hk Hn Hlen; [done|].
  cbn [strconv.atoi_fast_loop digits_value].
  pose proof (uint8_digit c) as Hc.
  destruct (digit_value c) as [d|].
  - destruct Hc as [-> Hd].
    destruct (Z.ltb_spec 9 d); [lia|].
    cbn [String.length] in Hlen.
    assert (10 ^ (k + 1) <= 10 ^ m) by (apply Z.pow_le_mono_r; lia).
    assert (n * 10 + d < 10 ^ (k + 1)).
    { rewrite Z.pow_add_r by lia. lia. }
    rewrite to_int_small by lia.
    apply (IH _ (k + 1)); lia.
  - by destruct (Z.ltb_spec 9 (uint8 (byteZ c - 48))); [|lia].
Qed.

End FastPath.

Lemma in_range_pos (w v : Z) :
  0 <= v < 2 ^ (w - 1) ->
  (- 2 ^ (w - 1) <=? v) && (v <? 2 ^ (w - 1)) = true.
Proof.
  intros H. apply andb_true_intro. split; [apply Z.leb_le | apply Z.ltb_lt]; lia.
Qed.

Lemma in_range_neg (w v : Z) :
  0 <= v < 2 ^ (w - 1) ->
  (- 2 ^ (w - 1) <=? - v) && (- v <? 2 ^ (w - 1)) = true.
Proof.
  intros H. apply andb_true_intro. split; [apply Z.leb_le | apply Z.ltb_lt]; lia.
Qed.

(** [Atoi] accepts exactly the base-10 integers that fit Go's [int], and
    returns their value. *)
Lemma Atoi_spec (intSize : Z) (s : string) :
  intSize = 32 \/ intSize = 64 ->
  match spec_parse_int intSize s with
  | Some n => strconv.Atoi intSize s = (n, None)
  | None => exists r e, strconv.Atoi intSize s = (r, Some e)
  end.
Proof.
  intros Hsz. unfold strconv.Atoi.
  destruct (_ || _) eqn:Efast.
  - assert (exists m, (0 <= m /\ 10 ^ m <= 2 ^ (intSize - 1)) /\
                      0 < Z.of_nat (String.length s) <= m)
      as (m & Hm & Hlen).
    { destruct Hsz as [-> | ->]; simpl in Efast.
      - exists 9. split; [by vm_compute|]. rewrite orb_false_r in Efast.
        apply andb_prop in Efast as [?%Z.ltb_lt ?%Z.ltb_lt]. lia.
      - exists 18. split; [by vm_compute|].
        apply andb_prop in Efast as [?%Z.ltb_lt ?%Z.ltb_lt]. lia. }
    assert (Hsize : 1 <= intSize) by lia.
    destruct s as [|c t]; [simpl in Hlen; lia|].
    change (sbyte (String c t) 0) with (byteZ c).
    assert (Hfast : forall s1 : string,
      Z.of_nat (String.length s1) <= m ->
      strconv.atoi_fast_loop intSize 0 s1 = digits_value 0 s1 /\
      forall v, digits_value 0 s1 = Some v -> 0 <= v < 2 ^ (intSize - 1)).
    { intros s1 H1. split.
      - apply (atoi_fast_loop_spec intSize m Hsize Hm s1 0 0); lia.
      - intros v Hv. apply (digits_value_lt _ _ _ 0) in Hv; [|lia|lia].
        assert (10 ^ (0 + Z.of_nat (String.length s1)) <= 10 ^ m)
          by (apply Z.pow_le_mono_r; lia).
        lia. }
    unfold spec_parse_int, spec_decimal_integer.
    cbn [String.length] in Hlen.
    destruct (Z.eqb_spec (byteZ c) 45) as [Hm45|Hm45].
    + destruct (Z.eqb_spec (byteZ c) 43); [lia|]. cbn [orb sdrop].
      destruct t as [|c1 t1]; [by cbn; eauto|].
      destruct (Hfast (String c1 t1)) as [-> Hv]; [cbn [String.length] in *; lia|].
      cbn [String.length Nat.ltb Nat.leb is_empty].
      destruct (digits_value 0 (String c1 t1)) as [v|];
        cbn [fmap option_fmap option_map]; [|by eauto].
      specialize (Hv v eq_refl). rewrite in_range_neg by done.
      f_equal. apply to_int_small; lia.
    + destruct (Z.eqb_spec (byteZ c) 43) as [Hp|Hp]; cbn [orb sdrop].
      * destruct t as [|c1 t1]; [by cbn; eauto|].
        destruct (Hfast (String c1 t1)) as [-> Hv]; [cbn [String.length] in *; lia|].
        cbn [String.length Nat.ltb Nat.leb is_empty].
        destruct (digits_value 0 (String c1 t1)) as [v|]; [|by eauto].
        specialize (Hv v eq_refl). by rewrite in_range_pos.
      * destruct (Hfast (String c t)) as [-> Hv]; [cbn [String.length]; lia|].
        cbn [String.length Nat.ltb Nat.leb].
        destruct (digits_value 0 (String c t)) as [v|]; [|by eauto].
        specialize (Hv v eq_refl). by rewrite in_range_pos.
  - pose proof (ParseInt_spec intSize 0 intSize) as H.
    specialize (H ltac:(lia) eq_refl ltac:(lia) s).
    unfold spec_parse_int in *.
    destruct (spec_decimal_integer s) as [n|].
    + destruct (Z.leb_spec (- 2 ^ (intSize - 1)) n);
        destruct (Z.ltb_spec n (2 ^ (intSize - 1))); cbn [andb] in *;
        try (destruct H as (r & e & ->); by eauto).
      rewrite H. f_equal. apply to_int_small; lia.
    + destruct H as (r & e & ->). by eauto.
Qed.

Lemma getEnvAsInt_default (intSize : Z) (env : os.Env) (key : string) (d : Z) :
  intSize = 32 \/ intSize = 64 ->
  not_an_integer intSize env key ->
  getEnvAsInt intSize env key d = d.
Proof.
  intros Hsz H. unfold not_an_integer, getEnvAsInt, os.Getenv in *.
  destruct (env !! key) as [v|]; [|done]. simpl.
  destruct (is_empty v); [done|]. simpl.
  pose proof (Atoi_spec intSize v Hsz) as HA. rewrite H in HA.
  by destruct HA as (r & e & ->).
Qed.

Lemma getEnvAsInt_parsed (intSize : Z) (env : os.Env) (key v : string)
    (n d : Z) :
  intSize = 32 \/ intSize = 64 ->
  env !! key = Some v -> spec_parse_int intSize v = Some n ->
  getEnvAsInt intSize env key d = n.
Proof.
  intros Hsz Hv H. unfold getEnvAsInt. rewrite (Getenv_lookup _ _ _ Hv).
  pose proof (Atoi_spec intSize v Hsz) as HA. rewrite H in HA.
  rewrite HA. by destruct v.
Qed.

Lemma getEnvAsInt64_default (intSize : Z) (env : os.Env) (key : string)
    (d : Z) :
  not_an_integer 64 env key ->
  getEnvAsInt64 intSize env key d = d.
Proof.
  intros H. unfold not_an_integer, getEnvAsInt64, os.Getenv in *.
  destruct (env !! key) as [v|]; [|done]. simpl.
  destruct (is_empty v); [done|]. simpl.
  pose proof (ParseInt_spec intSize 64 64 ltac:(lia) eq_refl ltac:(lia) v)
    as HP.
  rewrite H in HP. by destruct HP as (r & e & ->).
Qed.

Lemma getEnvAsInt64_parsed (intSize : Z) (env : os.Env) (key v : string)
    (n d : Z) :
  env !! key = Some v -> spec_parse_int 64 v = Some n ->
  getEnvAsInt64 intSize env key d = n.
Proof.
  intros Hv H. unfold getEnvAsInt64. rewrite (Getenv_lookup _ _ _ Hv).
  pose proof (ParseInt_spec intSize 64 64 ltac:(lia) eq_refl ltac:(lia) v)
    as HP.
  rewrite H in HP. rewrite HP. by destruct v.
Qed.


Lemma getEnvAsInt_deleted (intSize : Z) (env : os.Env) (key : string) (d : Z) :
  getEnvAsInt intSize (delete key env) key d = d.
Proof. unfold getEnvAsInt. by rewrite Getenv_delete_eq. Qed.

Lemma getEnvAsInt64_deleted (intSize : Z) (env : os.Env) (key : string)
    (d : Z) :
  getEnvAsInt64 intSize (delete key env) key d = d.
Proof. unfold getEnvAsInt64. by rewrite Getenv_delete_eq. Qed.

Ltac other_variable :=
  first [ apply getEnvOrDefault_ext | apply getEnvAsInt_ext
        | apply getEnvAsInt64_ext | apply getEnvAsDuration_ext
        | apply getEnvAsStringSlice_ext ];
  symmetry; by apply Getenv_delete_ne.

(** Deleting a variable whose reads all give the default leaves the
    snapshot as it is. *)
Lemma snapshot_delete_int (intSize : Z) (env : os.Env) (key : string) :
  key ∈ int_variables ->
  (forall d, getEnvAsInt intSize env key d = d) ->
  snapshot intSize env = snapshot intSize (delete key env).
Proof.
  unfold int_variables. intros Hkey Hdef.
  unfold snapshot. rewrite !stores_after_literal.
  repeat (apply elem_of_cons in Hkey as [->|Hkey]);
    [ | | by apply elem_of_nil in Hkey ];
    (f_equal; project_field;
     first [ by rewrite Hdef, getEnvAsInt_deleted
           | other_variable
           | (f_equal; unfold max_file_size_literal;
              repeat (f_equal; try other_variable)) ]).
Qed.

Lemma snapshot_delete_int64 (intSize : Z) (env : os.Env) (key : string) :
  key ∈ int64_variables ->
  (forall d, getEnvAsInt64 intSize env key d = d) ->
  snapshot intSize env = snapshot intSize (delete key env).
Proof.
  unfold int64_variables. intros Hkey Hdef.
  unfold snapshot. rewrite !stores_after_literal.
  repeat (apply elem_of_cons in Hkey as [->|Hkey]);
    [ | | | | by apply elem_of_nil in Hkey ];
    (f_equal; project_field;
     first [ other_variable
           | (f_equal; unfold max_file_size_literal;
              repeat (f_equal;
                      try first [ by rewrite Hdef, getEnvAsInt64_deleted
                                | other_variable ])) ]).
Qed.

(** C4. For every integer-valued attribute, of Go's [int] or of 64 bits:
    when the variable is unset, empty, or is not a base-10 integer of the
    width of the attribute, the primitive returns the default; and a run
    of [LoadConfig] under such an environment ends exactly as the run
    with the variable removed (same snapshot, same output, no panic), so
    a malformed value cannot be told from an absent one. *)
Theorem malformed_integer_is_absent (intSize : Z) (env : os.Env)
    (key : string) (Hsz : intSize = 32 \/ intSize = 64) :
  (not_an_integer intSize env key ->
     (forall d, getEnvAsInt intSize env key d = d) /\
     (key ∈ int_variables ->
      forall w, LoadConfig intSize env w
                = LoadConfig intSize (delete key env) w)) /\
  (not_an_integer 64 env key ->
     (forall d, getEnvAsInt64 intSize env key d = d) /\
     (key ∈ int64_variables ->
      forall w, LoadConfig intSize env w
                = LoadConfig intSize (delete key env) w)) /\
  (forall w, exists c m,
     installed intSize env w = Some c /\
     RateLimitAttempts c = getEnvAsInt intSize env "RATE_LIMIT_ATTEMPTS" 100 /\
     SMTPPort c = getEnvAsInt intSize env "SMTP_PORT" 587 /\
     MaxFileSize c = SizeLimitPerCategory m /\
     m !! "images" = Some (getEnvAsInt64 intSize env "MAX_IMAGE_SIZE" 2097152) /\
     m !! "videos" = Some (getEnvAsInt64 intSize env "MAX_VIDEO_SIZE" 104857600) /\
     m !! "documents"
       = Some (getEnvAsInt64 intSize env "MAX_DOCUMENT_SIZE" 10485760)).
Proof.
  split; [|split].
  - intros H.
    assert (Hdef : forall d, getEnvAsInt intSize env key d = d)
      by (intros d; by apply getEnvAsInt_default).
    split; [done|]. intros Hkey w. rewrite !LoadConfig_run.
    by rewrite (snapshot_delete_int intSize env key Hkey Hdef).
  - intros H.
    assert (Hdef : forall d, getEnvAsInt64 intSize env key d = d)
      by (intros d; by apply getEnvAsInt64_default).
    split; [done|]. intros Hkey w. rewrite !LoadConfig_run.
    by rewrite (snapshot_delete_int64 intSize env key Hkey Hdef).
  - intros w. exists (snapshot intSize env), (max_file_size_literal intSize env).
    unfold installed. rewrite LoadConfig_run.
    by repeat split.
Qed.


(** * The theorems at concrete environments *)

Lemma environment_mode_accessors_witness :
  AppConfig production_world = Some (snapshot 64 production_env) /\
  value_of (IsProduction production_world) = Some true /\
  value_of (IsDevelopment production_world) = Some false.
Proof.
  split; [reflexivity|].
  destruct (environment_mode_accessors production_world
              (snapshot 64 production_env) eq_refl)
    as ((b1 & H1 & I1) & (b2 & H2 & I2) & _).
  rewrite H1, H2. simpl. split; f_equal.
  - apply I1. reflexivity.
  - destruct b2; [|reflexivity].
    assert (E : AppEnv (snapshot 64 production_env) = "development")
      by (apply I2; reflexivity).
    vm_compute in E. discriminate E.
Defined.

Lemma string_sequence_attribute_witness :
  getEnvAsStringSlice proxies_env "TRUSTED_PROXIES" ["localhost"]
    = ["a"; "b"; "c"] /\
  getEnvAsStringSlice proxies_env "ALLOWED_ORIGINS" ["http://localhost:3000"]
    = ["http://localhost:3000"].
Proof.
  split.
  - destruct (string_sequence_attribute proxies_env "TRUSTED_PROXIES"
                ["localhost"]) as (Hset & _ & Hex & _).
    rewrite (Hset "a, b ,,c"); [exact Hex | reflexivity | discriminate].
  - destruct (string_sequence_attribute proxies_env "ALLOWED_ORIGINS"
                ["http://localhost:3000"]) as (_ & Hunset & _).
    apply Hunset. left. reflexivity.
Defined.

Lemma whitespace_only_parts_give_empty_witness :
  blank_proxies_env !! "TRUSTED_PROXIES" = Some " , ," /\
  getEnvAsStringSlice blank_proxies_env "TRUSTED_PROXIES" ["localhost"] = [] /\
  TrustedProxies <$> installed 64 blank_proxies_env initial_world = Some [].
Proof.
  split; [reflexivity|].
  destruct (whitespace_only_parts_give_empty blank_proxies_env
              "TRUSTED_PROXIES" " , ," ["localhost"]) as [Hprim Hattr].
  - reflexivity.
  - discriminate.
  - repeat constructor.
  - split; [exact Hprim|].
    destruct (Hattr 64 initial_world) as (c & Hc & Ht & _).
    rewrite Hc. simpl. f_equal. apply Ht. reflexivity.
Defined.

Lemma duration_primitive_witness :
  getEnvAsDuration two_seconds_env "RATE_LIMIT_DURATION" "60s"
    = 2 * time.Second /\
  getEnvAsDuration ∅ "RATE_LIMIT_DURATION" "60s" = 60 * time.Second /\
  getEnvAsDuration bad_duration_env "RATE_LIMIT_DURATION" "60s"
    = 60 * time.Second /\
  getEnvAsDuration bad_duration_env "RATE_LIMIT_DURATION" "sixty" = 0.
Proof.
  repeat apply conj.
  - destruct (duration_primitive two_seconds_env "RATE_LIMIT_DURATION" "60s")
      as (Hp & _).
    apply (Hp "2s"); [reflexivity | discriminate | reflexivity].
  - destruct (duration_primitive ∅ "RATE_LIMIT_DURATION" "60s")
      as (_ & Hu & _).
    rewrite Hu; [reflexivity | left; reflexivity].
  - destruct (duration_primitive bad_duration_env "RATE_LIMIT_DURATION" "60s")
      as (_ & _ & Hm & _).
    rewrite (Hm "notaduration" (time.InvalidDuration "notaduration"));
      [reflexivity | reflexivity | discriminate | reflexivity].
  - destruct (duration_primitive bad_duration_env "RATE_LIMIT_DURATION"
                "sixty") as (_ & _ & Hm & Hz & _).
    rewrite (Hm "notaduration" (time.InvalidDuration "notaduration"));
      [ | reflexivity | discriminate | reflexivity].
    apply (Hz (time.InvalidDuration "sixty")). reflexivity.
Defined.

Lemma malformed_integer_is_absent_witness :
  getEnvAsInt 64 bad_attempts_env "RATE_LIMIT_ATTEMPTS" 100 = 100 /\
  LoadConfig 64 bad_attempts_env initial_world
    = LoadConfig 64 (delete "RATE_LIMIT_ATTEMPTS" bad_attempts_env)
        initial_world /\
  getEnvAsInt64 64 bad_image_size_env "MAX_IMAGE_SIZE" 2097152 = 2097152 /\
  LoadConfig 64 bad_image_size_env initial_world
    = LoadConfig 64 (delete "MAX_IMAGE_SIZE" bad_image_size_env)
        initial_world.
Proof.
  destruct (malformed_integer_is_absent 64 bad_attempts_env
              "RATE_LIMIT_ATTEMPTS" (or_intror eq_refl)) as (Hint & _).
  destruct (malformed_integer_is_absent 64 bad_image_size_env
              "MAX_IMAGE_SIZE" (or_intror eq_refl)) as (_ & Hint64 & _).
  destruct Hint as [Hd Hrun]; [reflexivity|].
  destruct Hint64 as [Hd64 Hrun64]; [reflexivity|].
  repeat apply conj.
  - apply Hd.
  - apply Hrun. repeat constructor.
  - apply Hd64.
  - apply Hrun64. repeat constructor.
Defined.



Lemma derived_accessors_witness :
  GetServerAddress initial_world = Panicked NilDereference initial_world /\
  IsProduction initial_world = Panicked NilDereference initial_world /\
  IsDevelopment initial_world = Panicked NilDereference initial_world /\
  GetServerAddress host_world = Ok "api.example.com:9090" host_world /\
  IsProduction host_world = Ok false host_world /\
  IsDevelopment host_world = Ok true host_world.
Proof.
  destruct (derived_accessors initial_world) as [Hnil _].
  destruct (Hnil eq_refl) as (Ha & Hp & Hd).
  destruct (derived_accessors host_world) as [_ Hset].
  destruct (Hset (snapshot 64 host_env) eq_refl) as (Ha' & Hp' & Hd').
  repeat apply conj.
  - exact Ha.
  - exact Hp.
  - exact Hd.
  - rewrite Ha'. reflexivity.
  - rewrite Hp'. reflexivity.
  - rewrite Hd'. reflexivity.
Defined.


(** * Further properties *)

(** ** String attributes *)














(** ** Defaults *)



(** ** Accessors after initialization *)




(** ** Elements of a string sequence *)

Lemma all_bytes_sdrop (P : Z -> bool) (n : nat) (s : string) :
  all_bytes P s = true -> all_bytes P (sdrop n s) = true.
Proof.
  revert s. induction n as [|n IH]; intros [|c s] H; simpl; try done.
  simpl in H. apply andb_prop in H as [_ H]. by apply IH.
Qed.

Lemma all_bytes_substring (P : Z -> bool) (a n : nat) (s : string) :
  all_bytes P s = true -> all_bytes P (String.substring a n s) = true.
Proof.
  revert a n. induction s as [|c s IH]; intros a n H.
  - by destruct a, n.
  - simpl in H. apply andb_prop in H as [Hc Hs].
    destruct a as [|a]; simpl.
    + destruct n as [|n]; simpl; [done|]. by rewrite Hc, IH.
    + by apply IH.
Qed.

Lemma all_bytes_slice (P : Z -> bool) (a b : nat) (s : string) :
  all_bytes P s = true -> all_bytes P (slice s a b) = true.
Proof. apply all_bytes_substring. Qed.

Lemma after_rune_sdrop (size : nat) (t0 : string) :
  exists k, strings.after_rune size t0 = sdrop k t0.
Proof.
  unfold strings.after_rune.
  repeat case_match; subst;
    first [ by exists 0%nat | by exists 1%nat | by exists 2%nat
          | by exists 3%nat ].
Qed.

Lemma all_bytes_after_rune (P : Z -> bool) (size : nat) (t0 : string) :
  all_bytes P t0 = true -> all_bytes P (strings.after_rune size t0) = true.
Proof.
  intros H. destruct (after_rune_sdrop size t0) as [k ->].
  by apply all_bytes_sdrop.
Qed.

Lemma all_bytes_TrimLeftFunc (P f : Z -> bool) (n : nat) (s : string) :
  (String.length s <= n)%nat ->
  all_bytes P s = true -> all_bytes P (strings.TrimLeftFunc f s) = true.
Proof.
  revert s. induction n as [|n IH]; intros [|c0 t0] Hlen Hs; try done.
  - simpl in Hlen. lia.
  - cbn [strings.TrimLeftFunc].
    destruct (utf8.DecodeRuneInString (String c0 t0)) as [r size].
    destruct (f r); [|done].
    simpl in Hs. apply andb_prop in Hs as [_ Ht].
    apply IH; [|by apply all_bytes_after_rune].
    pose proof (after_rune_length size t0). simpl in Hlen. lia.
Qed.

Lemma all_bytes_TrimRightFunc (P f : Z -> bool) (s : string) :
  all_bytes P s = true -> all_bytes P (strings.TrimRightFunc f s) = true.
Proof.
  intros H. unfold strings.TrimRightFunc.
  repeat case_match; by apply all_bytes_slice.
Qed.

Lemma all_bytes_trimSpace_stop (P : Z -> bool) (s : string) (stop : nat) :
  all_bytes P s = true -> all_bytes P (strings.trimSpace_stop s stop) = true.
Proof.
  intros H. induction stop as [|stop IH]; cbn [strings.trimSpace_stop].
  - by apply all_bytes_slice.
  - repeat case_match; try done.
    + by apply all_bytes_TrimRightFunc, all_bytes_slice.
    + by apply all_bytes_slice.
Qed.

(** [TrimSpace] only removes bytes: a property of every byte of the
    string holds of every byte of the result. *)
Lemma all_bytes_TrimSpace (P : Z -> bool) (s : string) :
  all_bytes P s = true -> all_bytes P (strings.TrimSpace s) = true.
Proof.
  unfold strings.TrimSpace.
  induction s as [|c t IH]; intros H; [done|].
  cbn [strings.trimSpace_start].
  pose proof H as [_ Ht]%andb_prop.
  repeat case_match.
  - unfold strings.TrimFunc.
    by apply all_bytes_TrimRightFunc, (all_bytes_TrimLeftFunc _ _ _ _ (Nat.le_refl _)).
  - by apply IH.
  - by apply all_bytes_trimSpace_stop.
Qed.

Lemma all_bytes_SplitSeq (P : Z -> bool) (s : string) (sep : ascii) :
  all_bytes P s = true -> Forall (fun p => all_bytes P p = true)
                            (strings.SplitSeq s sep).
Proof.
  induction s as [|c s IH]; intros H; simpl.
  - by repeat constructor.
  - simpl in H. apply andb_prop in H as [Hc Hs]. specialize (IH Hs).
    destruct (decide (c = sep)); [by constructor|].
    destruct (strings.SplitSeq s sep) as [|frag frags].
    + repeat constructor. simpl. by rewrite Hc.
    + apply Forall_cons in IH as [? ?]. constructor; [|done].
      simpl. by rewrite Hc.
Qed.

Lemma free_of_not_comma (s : string) :
  free_of "," s <-> all_bytes not_comma s = true.
Proof.
  induction s as [|c s IH]; simpl; [done|].
  rewrite andb_true_iff, <- IH. unfold not_comma.
  rewrite negb_true_iff, Z.eqb_neq.
  split; intros [Hc Hs]; (split; [|done]).
  - intros E. apply Hc. apply (f_equal byte_of_Z) in E.
    unfold byteZ, byte_of_Z in E. rewrite N2Z.id, ascii_N_embedding in E.
    by rewrite E.
  - by intros ->.
Qed.

Lemma length_filter_fmap {A B : Type} (P : B -> Prop)
    `{forall x, Decision (P x)} (f : A -> B) (l : list A) :
  (length (filter P (f <$> l)) <= length l)%nat.
Proof.
  etransitivity; [apply length_filter|]. by rewrite length_fmap.
Qed.

(** X8. When a sequence variable is set to a non-empty value, every
    element of the sequence read is non-empty and contains no comma, the
    elements are at most as many as the comma-separated parts of the
    value, and each element is the trimmed form of one of the parts. *)
Theorem sequence_elements (env : os.Env) (key v : string)
    (defaultValue : list string)
    (Hset : env !! key = Some v)
    (Hne : v <> EmptyString) :
  Forall (fun x => x <> EmptyString /\ free_of "," x /\
                   exists part, part ∈ strings.SplitSeq v "," /\
                                x = strings.TrimSpace part)
    (getEnvAsStringSlice env key defaultValue) /\
  (length (getEnvAsStringSlice env key defaultValue)
   <= length (strings.SplitSeq v ","))%nat.
Proof.
  rewrite (getEnvAsStringSlice_set _ _ _ _ Hset Hne).
  unfold spec_split_trim_drop. split; [|apply length_filter_fmap].
  apply Forall_forall. intros x [Hx Hin]%list_elem_of_filter.
  apply list_elem_of_fmap in Hin as (part & -> & Hpart).
  split; [done|]. split; [|by eauto].
  apply free_of_not_comma, all_bytes_TrimSpace, free_of_not_comma.
  pose proof (SplitSeq_free_of v ",") as HF.
  rewrite Forall_forall in HF. by apply HF.
Qed.

Lemma drop_leading_spaces_start (s : string) :
  starts_with_space (drop_leading_spaces s) = false.
Proof.
  induction s as [|c t IH]; simpl; [done|].
  destruct (strings.asciiSpace (byteZ c)) eqn:E; [done|]. by simpl.
Qed.

Lemma drop_trailing_spaces_start (s : string) :
  starts_with_space s = false ->
  starts_with_space (drop_trailing_spaces s) = false.
Proof.
  destruct s as [|c t]; simpl; [done|]. intros H.
  by destruct (is_empty (drop_trailing_spaces t) && _).
Qed.

Lemma drop_trailing_spaces_end (s : string) :
  ends_with_space (drop_trailing_spaces s) = false.
Proof.
  induction s as [|c t IH]; [done|]. cbn [drop_trailing_spaces].
  destruct (drop_trailing_spaces t) as [|c' r] eqn:E; simpl.
  - by destruct (strings.asciiSpace (byteZ c)) eqn:Ec.
  - done.
Qed.

Lemma spec_trim_ascii_trimmed (s : string) :
  starts_with_space (spec_trim_ascii s) = false /\
  ends_with_space (spec_trim_ascii s) = false.
Proof.
  unfold spec_trim_ascii. split.
  - apply drop_trailing_spaces_start, drop_leading_spaces_start.
  - apply drop_trailing_spaces_end.
Qed.

(** X9. When a sequence variable is set to a non-empty value of ASCII
    bytes, no element of the sequence read starts or ends with an ASCII
    white space (tab, newline, vertical tab, form feed, carriage return,
    space). *)
Theorem sequence_elements_trimmed (env : os.Env) (key v : string)
    (defaultValue : list string)
    (Hset : env !! key = Some v)
    (Hne : v <> EmptyString)
    (Hascii : all_bytes is_ascii v = true) :
  Forall (fun x => starts_with_space x = false /\ ends_with_space x = false)
    (getEnvAsStringSlice env key defaultValue).
Proof.
  rewrite (getEnvAsStringSlice_set _ _ _ _ Hset Hne).
  unfold spec_split_trim_drop.
  apply Forall_forall. intros x [_ Hin]%list_elem_of_filter.
  apply list_elem_of_fmap in Hin as (part & -> & Hpart).
  pose proof (all_bytes_SplitSeq _ _ "," Hascii) as HF.
  rewrite Forall_forall in HF.
  rewrite (TrimSpace_ascii _ (HF _ Hpart)).
  apply spec_trim_ascii_trimmed.
Qed.

Lemma SplitSeq_single (e : string) (sep : ascii) :
  free_of sep e -> strings.SplitSeq e sep = [e].
Proof.
  induction e as [|c e IH]; simpl; [done|]. intros [Hc He].
  destruct (decide (c = sep)); [done|]. by rewrite (IH He).
Qed.

Lemma SplitSeq_app_sep (e rest : string) (sep : ascii) :
  free_of sep e ->
  strings.SplitSeq (e +:+ String sep rest) sep
    = e :: strings.SplitSeq rest sep.
Proof.
  induction e as [|c e IH]; intros He.
  - change (EmptyString +:+ String sep rest) with (String sep rest).
    simpl. by destruct (decide (sep = sep)).
  - destruct He as [Hc He].
    change (String c e +:+ String sep rest)
      with (String c (e +:+ String sep rest)).
    cbn [strings.SplitSeq]. rewrite (IH He).
    by destruct (decide (c = sep)).
Qed.

(** Splitting undoes joining when no element contains the separator. *)
Lemma SplitSeq_Join (parts : list string) (sep : ascii) :
  parts <> [] -> Forall (free_of sep) parts ->
  strings.SplitSeq (strings.Join parts sep) sep = parts.
Proof.
  induction parts as [|e rest IH]; [done|]. intros _ HF.
  apply Forall_cons in HF as [He Hrest].
  destruct rest as [|e' rest'].
  - by apply SplitSeq_single.
  - change (strings.Join (e :: e' :: rest') sep)
      with (e +:+ String sep (strings.Join (e' :: rest') sep)).
    rewrite SplitSeq_app_sep by done. f_equal. by apply IH.
Qed.

(** X10. Round trip of a sequence: when the variable holds a list of
    comma-free ASCII parts joined by commas (and the joined value is not
    empty), the sequence read is the list of the parts, each without its
    leading and trailing ASCII white space, the empty ones dropped, in
    order; so a list of non-empty parts that carry no such white space
    is read back exactly. *)
Theorem sequence_round_trip (env : os.Env) (key : string)
    (defaultValue parts : list string)
    (Hparts : Forall (fun p => free_of "," p /\ all_bytes is_ascii p = true)
                parts)
    (Hset : env !! key = Some (strings.Join parts ","))
    (Hne : strings.Join parts "," <> EmptyString) :
  getEnvAsStringSlice env key defaultValue
    = filter (fun x : string => x <> EmptyString) (spec_trim_ascii <$> parts) /\
  (Forall (fun p => p <> EmptyString /\ spec_trim_ascii p = p) parts ->
   getEnvAsStringSlice env key defaultValue = parts).
Proof.
  assert (Hnil : parts <> []) by (by intros ->).
  assert (Hread : getEnvAsStringSlice env key defaultValue
    = filter (fun x : string => x <> EmptyString) (spec_trim_ascii <$> parts)).
  { rewrite (getEnvAsStringSlice_set _ _ _ _ Hset Hne).
    unfold spec_split_trim_drop. rewrite SplitSeq_Join; [|done|].
    - f_equal. apply list_fmap_ext. intros i p Hp.
      rewrite Forall_forall in Hparts.
      apply TrimSpace_ascii, Hparts. by eapply list_elem_of_lookup_2.
    - eapply Forall_impl; [exact Hparts|]. by intros p [? _]. }
  split; [done|]. intros Hclean. rewrite Hread. clear Hread Hset Hne Hparts Hnil.
  induction Hclean as [|p ps [Hp Htrim] _ IH]; [done|].
  cbn [fmap list_fmap]. rewrite Htrim, filter_cons_True by done.
  f_equal. apply IH.
Qed.

(** ** Integers in decimal notation *)

Lemma digit_char_value (d : Z) :
  0 <= d <= 9 -> digit_value (digit_char d) = Some d.
Proof.
  intros Hd. unfold digit_value, digit_char, byteZ, byte_of_Z.
  rewrite N_ascii_embedding by lia. rewrite Z2N.id by lia.
  destruct (Z.leb_spec 48 (48 + d)); [|lia].
  destruct (Z.leb_spec (48 + d) 57); [|lia].
  simpl. f_equal. lia.
Qed.

Lemma digits_value_snoc (s : string) (c : ascii) (acc : Z) :
  digits_value acc (s +:+ String c EmptyString) =
  match digits_value acc s, digit_value c with
  | Some v, Some d => Some (v * 10 + d)
  | _, _ => None
  end.
Proof.
  revert acc. induction s as [|a s IH]; intros acc.
  - change (EmptyString +:+ String c EmptyString) with (String c EmptyString).
    simpl. by destruct (digit_value c).
  - change (String a s +:+ String c EmptyString)
      with (String a (s +:+ String c EmptyString)).
    cbn [digits_value]. destruct (digit_value a); [apply IH|done].
Qed.

Lemma render_digits_S (fuel : nat) (n : Z) :
  render_digits (S fuel) n =
  if n <? 10 then String (digit_char n) EmptyString
  else render_digits fuel (n / 10)
       +:+ String (digit_char (n mod 10)) EmptyString.
Proof. reflexivity. Qed.

Lemma render_digits_value (fuel : nat) (n : Z) :
  0 <= n < 2 ^ Z.of_nat (S fuel) ->
  digits_value 0 (render_digits (S fuel) n) = Some n /\
  render_digits (S fuel) n <> EmptyString.
Proof.
  revert n. induction fuel as [|fuel IH]; intros n Hn;
    rewrite render_digits_S; destruct (Z.ltb_spec n 10) as [Hlt|Hge];
    try (split; [|done]; cbn [digits_value];
         by rewrite digit_char_value by lia).
  - simpl in Hn. lia.
  - rewrite Nat2Z.inj_succ, Z.pow_succ_r in Hn by lia.
    destruct (IH (n / 10)) as [Hv Hnil].
    { split; [apply Z.div_pos; lia|].
      apply Z.div_lt_upper_bound; lia. }
    split.
    + rewrite digits_value_snoc, Hv, digit_char_value.
      * f_equal. pose proof (Z.div_mod n 10). lia.
      * pose proof (Z.mod_pos_bound n 10). lia.
    + destruct (render_digits (S fuel) (n / 10)); [done|].
      discriminate.
Qed.

Lemma log2_fuel (n : Z) :
  0 <= n -> 0 <= n < 2 ^ Z.of_nat (S (Z.to_nat (Z.log2 n))).
Proof.
  intros Hn. split; [done|].
  rewrite Nat2Z.inj_succ, Z2Nat.id by apply Z.log2_nonneg.
  destruct (Z.eq_dec n 0) as [->|Hne]; [done|].
  apply Z.log2_spec. lia.
Qed.

Lemma digits_value_spec_decimal (s : string) (n : Z) :
  digits_value 0 s = Some n -> s <> EmptyString ->
  spec_decimal_integer s = Some n.
Proof.
  destruct s as [|c t]; [done|]. intros H _.
  unfold spec_decimal_integer. cbn [digits_value] in H.
  destruct (digit_value c) as [d|] eqn:Ed; [|done].
  apply digit_value_range in Ed as [Hd Hc].
  destruct (Z.eqb_spec (byteZ c) 43); [lia|].
  destruct (Z.eqb_spec (byteZ c) 45); [lia|].
  cbn [digits_value]. unfold digit_value.
  destruct (Z.leb_spec 48 (byteZ c)); [|lia].
  destruct (Z.leb_spec (byteZ c) 57); [|lia].
  simpl. by rewrite <- Hc.
Qed.

(** The decimal notation of an integer is a base-10 integer with that
    value. *)
Lemma spec_decimal_integer_decimal (n : Z) :
  spec_decimal_integer (decimal n) = Some n.
Proof.
  unfold decimal. destruct (Z.ltb_spec n 0) as [Hneg|Hpos].
  - destruct (render_digits_value _ _ (log2_fuel (- n) ltac:(lia)))
      as [Hv Hnil].
    unfold spec_decimal_integer.
    change (byteZ (byte_of_Z 45)) with 45. cbn [Z.eqb Pos.eqb].
    apply is_empty_false in Hnil. rewrite Hnil, Hv. simpl. f_equal. lia.
  - destruct (render_digits_value _ _ (log2_fuel n Hpos)) as [Hv Hnil].
    by apply digits_value_spec_decimal.
Qed.

Lemma spec_parse_int_decimal (w n : Z) :
  fits w n -> spec_parse_int w (decimal n) = Some n.
Proof.
  intros [Hlo Hhi]. unfold spec_parse_int.
  rewrite spec_decimal_integer_decimal.
  destruct (Z.leb_spec (- 2 ^ (w - 1)) n); [|lia].
  by destruct (Z.ltb_spec n (2 ^ (w - 1))); [|lia].
Qed.


(** X11. Round trip of an integer: when an integer variable holds the
    decimal notation of a number that fits the width of its attribute,
    the primitive returns that number, whatever the default; so
    [RATE_LIMIT_ATTEMPTS], [SMTP_PORT] and the three size variables give
    back the number they were set to, negative numbers included. *)
Theorem integer_round_trip (intSize : Z) (env : os.Env) (key : string)
    (n : Z)
    (Hsz : intSize = 32 \/ intSize = 64)
    (Hset : env !! key = Some (decimal n)) :
  (fits intSize n -> forall d, getEnvAsInt intSize env key d = n) /\
  (fits 64 n -> forall d, getEnvAsInt64 intSize env key d = n) /\
  forall w, exists c m,
    installed intSize env w = Some c /\
    MaxFileSize c = SizeLimitPerCategory m /\
    (fits intSize n -> key = "RATE_LIMIT_ATTEMPTS" -> RateLimitAttempts c = n) /\
    (fits intSize n -> key = "SMTP_PORT" -> SMTPPort c = n) /\
    (fits 64 n -> key = "MAX_IMAGE_SIZE" -> m !! "images" = Some n) /\
    (fits 64 n -> key = "MAX_VIDEO_SIZE" -> m !! "videos" = Some n) /\
    (fits 64 n -> key = "MAX_DOCUMENT_SIZE" -> m !! "documents" = Some n).
Proof.
  assert (Hint : fits intSize n -> forall d, getEnvAsInt intSize env key d = n).
  { intros Hfit d. apply (getEnvAsInt_parsed _ _ _ (decimal n)); try done.
    by apply spec_parse_int_decimal. }
  assert (Hint64 : fits 64 n -> forall d, getEnvAsInt64 intSize env key d = n).
  { intros Hfit d. apply (getEnvAsInt64_parsed _ _ _ (decimal n)); try done.
    by apply spec_parse_int_decimal. }
  split; [done|]. split; [done|].
  intros w. exists (snapshot intSize env), (max_file_size_literal intSize env).
  unfold installed. rewrite LoadConfig_run.
  split; [done|]. split; [done|]. unfold max_file_size_literal.
  repeat apply conj; intros Hfit ->.
  - by apply Hint.
  - by apply Hint.
  - rewrite lookup_insert_eq. f_equal. by apply Hint64.
  - rewrite lookup_insert_ne, lookup_insert_eq by done. f_equal.
    by apply Hint64.
  - rewrite !lookup_insert_ne, lookup_insert_eq by done. f_equal.
    by apply Hint64.
Qed.




(** ** Durations written as a whole number and a unit *)

Lemma leadingInt_loop_digits (ds rest : string) (acc n : Z) :
  digits_value acc ds = Some n -> 0 <= acc -> n <= 2 ^ 63 ->
  match rest with
  | EmptyString => True
  | String c _ => time.is_digit (byteZ c) = false
  end ->
  time.leadingInt_loop acc (ds +:+ rest) = (n, rest, false).
Proof.
  change (2 ^ 63) with 9223372036854775808.
  revert acc. induction ds as [|c ds IH]; intros acc Hv Hacc Hn Hrest.
  - change (EmptyString +:+ rest) with rest. simpl in Hv. inversion Hv; subst.
    destruct rest as [|c r]; [done|]. simpl. by rewrite Hrest.
  - change (String c ds +:+ rest) with (String c (ds +:+ rest)).
    cbn [digits_value] in Hv. cbn [time.leadingInt_loop].
    destruct (digit_value c) as [d|] eqn:Ed; [|done].
    pose proof Ed as [Hd Hc]%digit_value_range.
    assert (Hacc' : 0 <= acc * 10 + d) by lia.
    pose proof (digits_value_ge _ _ _ Hacc' Hv) as Hge.
    unfold time.is_digit.
    destruct (Z.leb_spec 48 (byteZ c)); [|lia].
    destruct (Z.leb_spec (byteZ c) 57); [|lia]. cbn [andb negb].
    change (2 ^ 63 / 10) with 922337203685477580.
    destruct (Z.ltb_spec 922337203685477580 acc); [lia|].
    replace (acc * 10 + byteZ c - 48) with (acc * 10 + d) by lia.
    rewrite uint64_small
      by (change (2 ^ 64) with 18446744073709551616; lia).
    change (2 ^ 63) with 9223372036854775808.
    destruct (Z.ltb_spec 9223372036854775808 (acc * 10 + d)); [lia|].
    apply IH; (done || lia).
Qed.

Lemma sdrop_all (s : string) : sdrop (String.length s) s = EmptyString.
Proof. induction s as [|c s IH]; [done|]. by simpl. Qed.

Lemma length_append (s1 s2 : string) :
  String.length (s1 +:+ s2) = (String.length s1 + String.length s2)%nat.
Proof.
  induction s1 as [|c s1 IH]; [done|].
  change (String c s1 +:+ s2) with (String c (s1 +:+ s2)).
  simpl. by rewrite IH.
Qed.

Lemma unitMap_units (u : string) (unit : Z) :
  time.unitMap u = Some unit <-> (u, unit) ∈ duration_units.
Proof.
  unfold time.unitMap, duration_units. split.
  - intros H.
    repeat match type of H with
           | (if String.eqb u ?k then _ else _) = _ =>
               destruct (String.eqb_spec u k) as [->|];
               [ injection H as <-;
                 repeat first [ apply list_elem_of_here
                              | apply list_elem_of_further ]
               | ]
           end.
    done.
  - intros H.
    repeat (apply elem_of_cons in H as [H|H];
            [by injection H as -> ->|]).
    by apply elem_of_nil in H.
Qed.

Lemma duration_unit_shape (u : string) (unit : Z) :
  (u, unit) ∈ duration_units ->
  0 < unit /\ time.unit_length u = String.length u /\
  exists c t, u = String c t /\ (byteZ c =? 46) = false /\
              time.is_digit (byteZ c) = false.
Proof.
  unfold duration_units. intros H.
  repeat (apply elem_of_cons in H as [H|H];
          [injection H as -> ->; by (repeat split; eauto)|]).
  by apply elem_of_nil in H.
Qed.

Lemma parse_loop_empty (orig : string) (fuel : nat) (d : Z) :
  time.parse_loop orig fuel EmptyString d = time.Done d.
Proof. by destruct fuel. Qed.

(** A string of digits followed by a unit parses to the number times the
    unit. *)
Lemma ParseDuration_whole_number (ds u : string) (n unit : Z) :
  digits_value 0 ds = Some n -> ds <> EmptyString ->
  (u, unit) ∈ duration_units -> n * unit < 2 ^ 63 ->
  time.ParseDuration (ds +:+ u) = (n * unit, None).
Proof.
  intros Hv Hds Hu Hbound.
  pose proof (digits_value_ge _ _ _ (Z.le_refl 0) Hv) as Hn.
  destruct (duration_unit_shape _ _ Hu) as (Hpos & Hlen & c1 & t1 & Eu & Hdot & Hdig).
  apply unitMap_units in Hu.
  assert (Hnb : n <= 2 ^ 63) by nia.
  pose proof (leadingInt_loop_digits ds u 0 n Hv (Z.le_refl 0) Hnb) as Hlead.
  rewrite Eu in Hlead at 1. specialize (Hlead Hdig).
  destruct ds as [|c0 ds']; [done|].
  change (String c0 ds' +:+ u) with (String c0 (ds' +:+ u)) in *.
  cbn [digits_value] in Hv.
  destruct (digit_value c0) as [d0|] eqn:Ed0; [|done].
  apply digit_value_range in Ed0 as [Hd0 Hc0].
  unfold time.ParseDuration.
  destruct (Z.eqb_spec (byteZ c0) 45); [lia|].
  destruct (Z.eqb_spec (byteZ c0) 43); [lia|]. cbn [orb].
  assert (String.eqb (String c0 (ds' +:+ u)) "0" = false) as ->.
  { apply String.eqb_neq. intros E. injection E as _ E.
    apply (f_equal String.length) in E. rewrite length_append, Eu in E.
    simpl in E. lia. }
  cbn [is_empty String.length time.parse_loop].
  unfold time.is_digit at 1.
  destruct (Z.leb_spec 48 (byteZ c0)); [|lia].
  destruct (Z.leb_spec (byteZ c0) 57); [|lia].
  rewrite orb_true_r. cbn [negb].
  unfold time.leadingInt. rewrite Hlead.
  assert ((S (String.length (ds' +:+ u)) =? String.length u)%nat = false)
    as ->.
  { apply Nat.eqb_neq. rewrite length_append. lia. }
  rewrite Eu at 1. rewrite Hdot. cbn [negb andb].
  rewrite Hlen.
  assert ((String.length u =? 0)%nat = false) as ->.
  { apply Nat.eqb_neq. rewrite Eu. simpl. lia. }
  rewrite slice_0_length, sdrop_all, Hu.
  assert ((2 ^ 63 / unit <? n) = false) as ->.
  { apply Z.ltb_ge. apply Z.div_le_lower_bound; lia. }
  cbn [Z.ltb Z.compare andb].
  rewrite (uint64_small (n * unit))
    by (change (2 ^ 64) with (2 * 2 ^ 63); nia).
  rewrite Z.add_0_l.
  rewrite (uint64_small (n * unit))
    by (change (2 ^ 64) with (2 * 2 ^ 63); nia).
  destruct (Z.ltb_spec (2 ^ 63) (n * unit)); [lia|].
  rewrite parse_loop_empty.
  destruct (Z.ltb_spec (2 ^ 63 - 1) (n * unit)); [lia|].
  f_equal. apply int64_small. nia.
Qed.

(** X13. A duration written as a whole number followed by one of the
    units ns, us, ms, s, m, h: when the variable holds such a string and
    the number of nanoseconds fits 63 bits, the primitive returns the
    number times the unit, whatever the default; so
    [RATE_LIMIT_DURATION=90m] is ninety minutes. *)
Theorem duration_whole_number (env : os.Env) (key defaultValue : string)
    (ds u : string) (n unit : Z)
    (Hdigits : digits_value 0 ds = Some n)
    (Hds : ds <> EmptyString)
    (Hunit : (u, unit) ∈ duration_units)
    (Hbound : n * unit < 2 ^ 63)
    (Hset : env !! key = Some (ds +:+ u)) :
  getEnvAsDuration env key defaultValue = n * unit /\
  forall (intSize : Z) (w : World),
    key = "RATE_LIMIT_DURATION" ->
    exists c, installed intSize env w = Some c /\
              RateLimitDuration c = n * unit.
Proof.
  assert (Hread : forall d, getEnvAsDuration env key d = n * unit).
  { intros d. apply (getEnvAsDuration_parsed _ _ _ (ds +:+ u)); [done| |].
    - destruct ds; [done|discriminate].
    - by apply ParseDuration_whole_number. }
  split; [apply Hread|]. intros intSize w ->.
  exists (snapshot intSize env). unfold installed. rewrite LoadConfig_run.
  split; [done|]. apply Hread.
Qed.

(** ** Values that are not accepted *)

Lemma digits_value_all_digits (s : string) (acc n : Z) :
  digits_value acc s = Some n -> all_bytes time.is_digit s = true.
Proof.
  revert acc. induction s as [|c s IH]; intros acc H; [done|].
  cbn [digits_value] in H. simpl.
  destruct (digit_value c) as [d|] eqn:Ed; [|done].
  rewrite (IH _ H), andb_true_r. unfold digit_value in Ed.
  unfold time.is_digit. by destruct (_ && _).
Qed.

Lemma digit_value_is_digit (c : ascii) :
  digit_value c = None <-> time.is_digit (byteZ c) = false.
Proof.
  unfold digit_value, time.is_digit. by destruct (_ && _).
Qed.

(** X15. The integer primitives accept nothing around the number: when
    the value of the variable has a byte after the first that is not a
    decimal digit, or a first byte that is neither a digit nor a sign,
    both return the default; white space is not trimmed and separators,
    hexadecimal and exponents are not read. *)
Theorem integer_syntax_is_strict (intSize : Z) (env : os.Env)
    (key : string) (c : ascii) (t : string)
    (Hsz : intSize = 32 \/ intSize = 64)
    (Hset : env !! key = Some (String c t))
    (Hbad : all_bytes time.is_digit t = false \/
            (time.is_digit (byteZ c) = false /\
             byteZ c <> 43 /\ byteZ c <> 45)) :
  (forall d, getEnvAsInt intSize env key d = d) /\
  (forall d, getEnvAsInt64 intSize env key d = d).
Proof.
  assert (Hnone : spec_decimal_integer (String c t) = None).
  { unfold spec_decimal_integer.
    assert (Htail : all_bytes time.is_digit t = false ->
                    forall acc, digits_value acc t = None).
    { intros Ht acc. destruct (digits_value acc t) eqn:E; [|done].
      apply digits_value_all_digits in E. congruence. }
    destruct Hbad as [Ht | (Hc & H43 & H45)].
    - destruct (byteZ c =? 43), (byteZ c =? 45);
        try (destruct (is_empty t); [done|]; by rewrite Htail).
      cbn [digits_value]. destruct (digit_value c); [by apply Htail|done].
    - destruct (Z.eqb_spec (byteZ c) 43); [done|].
      destruct (Z.eqb_spec (byteZ c) 45); [done|].
      cbn [digits_value]. apply digit_value_is_digit in Hc. by rewrite Hc. }
  assert (Hnot : forall w, not_an_integer w env key).
  { intros w. unfold not_an_integer, spec_parse_int. by rewrite Hset, Hnone. }
  split; intros d.
  - by apply getEnvAsInt_default.
  - by apply getEnvAsInt64_default.
Qed.




(** ** Repeated initialization *)


(** * The further properties at concrete environments *)

Ltac in_list :=
  repeat first [ apply list_elem_of_here | apply list_elem_of_further ].








Lemma sequence_elements_witness :
  Forall (fun x => x <> EmptyString /\ free_of "," x /\
                   exists part,
                     part ∈ strings.SplitSeq
                              "https://a.example , https://b.example,, " "," /\
                     x = strings.TrimSpace part)
    (getEnvAsStringSlice origins_env "ALLOWED_ORIGINS" []) /\
  getEnvAsStringSlice origins_env "ALLOWED_ORIGINS" []
    = ["https://a.example"; "https://b.example"].
Proof.
  split; [|reflexivity].
  apply (sequence_elements origins_env "ALLOWED_ORIGINS"
           "https://a.example , https://b.example,, " []);
    [reflexivity | discriminate].
Defined.

Lemma sequence_elements_trimmed_witness :
  Forall (fun x => starts_with_space x = false /\ ends_with_space x = false)
    (getEnvAsStringSlice origins_env "ALLOWED_ORIGINS" []).
Proof.
  apply (sequence_elements_trimmed origins_env "ALLOWED_ORIGINS"
           "https://a.example , https://b.example,, " []);
    [reflexivity | discriminate | reflexivity].
Defined.

Lemma sequence_round_trip_witness :
  strings.Join ["https://a.example "; " https://b.example"; ""; " "] ","
    = "https://a.example , https://b.example,, " /\
  getEnvAsStringSlice origins_env "ALLOWED_ORIGINS" []
    = ["https://a.example"; "https://b.example"] /\
  getEnvAsStringSlice {[ "TRUSTED_PROXIES" := "10.0.0.1,proxy.local" ]}
    "TRUSTED_PROXIES" ["localhost"] = ["10.0.0.1"; "proxy.local"].
Proof.
  split; [reflexivity|]. split.
  - destruct (sequence_round_trip origins_env "ALLOWED_ORIGINS" []
                ["https://a.example "; " https://b.example"; ""; " "])
      as [Hread _].
    + repeat (constructor; [split; [simpl; intuition discriminate | reflexivity]|]).
      constructor.
    + reflexivity.
    + discriminate.
    + rewrite Hread. reflexivity.
  - destruct (sequence_round_trip
                {[ "TRUSTED_PROXIES" := "10.0.0.1,proxy.local" ]}
                "TRUSTED_PROXIES" ["localhost"] ["10.0.0.1"; "proxy.local"])
      as [_ Hexact].
    + repeat (constructor; [split; [simpl; intuition discriminate | reflexivity]|]).
      constructor.
    + reflexivity.
    + discriminate.
    + apply Hexact.
      repeat (constructor; [split; [discriminate | reflexivity]|]).
      constructor.
Defined.

Lemma integer_round_trip_witness :
  decimal 250 = "250" /\ decimal (-1) = "-1" /\
  getEnvAsInt 64 attempts_env "RATE_LIMIT_ATTEMPTS" 100 = 250 /\
  getEnvAsInt 64 attempts_env "SMTP_PORT" 587 = -1.
Proof.
  split; [reflexivity|]. split; [reflexivity|]. split.
  - destruct (integer_round_trip 64 attempts_env "RATE_LIMIT_ATTEMPTS" 250
                (or_intror eq_refl) eq_refl) as [Hint _].
    apply Hint. unfold fits. simpl. lia.
  - destruct (integer_round_trip 64 attempts_env "SMTP_PORT" (-1)
                (or_intror eq_refl) eq_refl) as [Hint _].
    apply Hint. unfold fits. simpl. lia.
Defined.


Lemma duration_whole_number_witness :
  getEnvAsDuration ninety_minutes_env "RATE_LIMIT_DURATION" "60s"
    = 90 * time.Minute.
Proof.
  destruct (duration_whole_number ninety_minutes_env "RATE_LIMIT_DURATION"
              "60s" "90" "m" 90 60000000000) as [Hread _].
  - reflexivity.
  - discriminate.
  - unfold duration_units. in_list.
  - reflexivity.
  - reflexivity.
  - rewrite Hread. reflexivity.
Defined.

Lemma integer_syntax_is_strict_witness :
  getEnvAsInt 64 {[ "SMTP_PORT" := " 25" ]} "SMTP_PORT" 587 = 587 /\
  getEnvAsInt64 64 {[ "MAX_IMAGE_SIZE" := "5MB" ]} "MAX_IMAGE_SIZE" 2097152
    = 2097152.
Proof.
  split.
  - destruct (integer_syntax_is_strict 64 {[ "SMTP_PORT" := " 25" ]}
                "SMTP_PORT" " "%char "25" (or_intror eq_refl))
      as [Hint _].
    + reflexivity.
    + right. repeat split; discriminate.
    + apply Hint.
  - destruct (integer_syntax_is_strict 64 {[ "MAX_IMAGE_SIZE" := "5MB" ]}
                "MAX_IMAGE_SIZE" "5"%char "MB" (or_intror eq_refl))
      as [_ Hint64].
    + reflexivity.
    + left. reflexivity.
    + apply Hint64.
Defined.

